(** * Consensus engine of the multi-agent security scanner

    A shallow embedding of [src/consensus/consensus_engine.py]
    (class [ConsensusEngine]) and the properties of its reconciliation
    algorithm: similarity of findings, greedy clustering, the consensus
    decision per cluster and the statistics of a run.

    Modelling conventions.
    - A finding is a Python [dict]; the keys the engine reads or writes are
      the fields of the record [Finding], an absent key is [None], and the
      remaining keys are carried along in [extra].
    - Python strings are ASCII strings ([string]); [str.lower],
      [str.split] and the regular expressions are modelled on that
      alphabet, and a statement that depends on it assumes
      [str.isascii()].
    - A Python float is a rational ([Q]). A record holds a number as it is
      written in the JSON text or in the program; reading it gives the
      binary64 number nearest to it ([Py.float]), which is what the dict
      holds, and [sum], [/] and [round] round their exact result in the
      same way, ties to the even neighbour. Infinities, NaN and the sign
      of zero are not modelled: the numbers stay below the overflow
      threshold [2^1024].
    - Findings are mutable objects that the engine updates in place; they
      live in a store [gmap loc Finding] and the lists the engine handles are
      lists of references, so that two entries may alias one object.
    - A raised exception is [None]. *)

From Stdlib Require Import Ascii QArith Qround Qabs Qpower Lqa.
From Stdlib Require String.
From stdpp Require Import gmap strings list fin_maps pretty.

Set Warnings "-clear-no-such-hyp".

(** ** Python built-ins used by the engine *)

Module Py.

(** [str.lower] on one ASCII character. *)
Definition lower_ascii (c : ascii) : ascii :=
  let n := N_of_ascii c in
  if ((65 <=? n)%N && (n <=? 90)%N)%bool then ascii_of_N (n + 32) else c.

(** [str.lower]. *)
Fixpoint lower (s : string) : string :=
  match s with
  | EmptyString => EmptyString
  | String c s' => String (lower_ascii c) (lower s')
  end.

(** [str.isascii]: every character is below 128. *)
Definition isascii (s : string) : bool :=
  forallb (λ c, (N_of_ascii c <? 128)%N) (String.list_ascii_of_string s).

(** [str.isspace] on one ASCII character: tab, line feed, vertical tab,
    form feed, carriage return, the four separators 28..31 and space. *)
Definition isspace (c : ascii) : bool :=
  let n := N_of_ascii c in
  (((9 <=? n)%N && (n <=? 13)%N) || ((28 <=? n)%N && (n <=? 32)%N))%bool.

(** [str.split()] without arguments: the maximal runs of non-space
    characters, in order. [cur] is the run being read, reversed. *)
Fixpoint split_go (cur : list ascii) (s : string) : list string :=
  match s with
  | EmptyString =>
      match cur with
      | [] => []
      | _ => [String.string_of_list_ascii (rev cur)]
      end
  | String c s' =>
      if isspace c then
        match cur with
        | [] => split_go [] s'
        | _ => String.string_of_list_ascii (rev cur) :: split_go [] s'
        end
      else split_go (c :: cur) s'
  end.

Definition split (s : string) : list string := split_go [] s.

(** [set(l)] for a list of strings. *)
Definition set (l : list string) : gset string := list_to_set l.

(** Truth value of a set: non-empty. *)
Definition truthy (s : gset string) : bool := bool_decide (s ≠ ∅).

(** [x > y] on numbers. *)
Definition gt (x y : Q) : bool := negb (Qle_bool x y).

(** [n / m] on two lengths (true division). The quotient is left exact:
    it is only compared with 0.5, a binary64 number, which the rounding of
    the quotient cannot cross. *)
Definition truediv (n m : nat) : Q :=
  (inject_Z (Z.of_nat n) / inject_Z (Z.of_nat m))%Q.

(** [round(x)] to an integer, ties to the even neighbour. *)
Definition round_half_even (x : Q) : Z :=
  let f := Qfloor x in
  let r := (x - inject_Z f)%Q in
  match (r ?= 1 # 2)%Q with
  | Lt => f
  | Gt => (f + 1)%Z
  | Eq => if Z.even f then f else (f + 1)%Z
  end.

(** [floor(log2(x))] for a positive [x]. *)
Definition ilog2 (x : Q) : Z :=
  let d := (Z.log2 (Qnum x) - Z.log2 (Zpos (Qden x)))%Z in
  if Qle_bool (2 ^ d) x then d else (d - 1)%Z.

(** The exponent of the last place of the binary64 numbers of the
    magnitude of [x]: 53 significant bits, and no place below [2^-1074]. *)
Definition ulp_exponent (x : Q) : Z :=
  Z.max (ilog2 (Qabs x) - 52) (-1074).

(** [float(x)]: the binary64 number nearest to [x], ties to the even
    significand, as a reduced fraction. *)
Definition float (x : Q) : Q :=
  if Qeq_bool x 0 then 0%Q
  else
    let q := ulp_exponent x in
    Qred (inject_Z (round_half_even (x / 2 ^ q)) * 2 ^ q).

(** [x / n] of a float by an [int]. *)
Definition truediv_float (x : Q) (n : nat) : Q :=
  float (x / float (inject_Z (Z.of_nat n))).

(** [round(x, 2)] of a float: the decimal with two places nearest to the
    exact value of [x], ties to even, and then its float. *)
Definition round2 (x : Q) : Q :=
  float (inject_Z (round_half_even (x * 100)) / 100).

(** [max(l, key=key)]: the first element whose key no later element
    exceeds; [ValueError] on the empty list. *)
Fixpoint max_go {A} (key : A → Q) (best : A) (l : list A) : A :=
  match l with
  | [] => best
  | x :: l' => max_go key (if gt (key x) (key best) then x else best) l'
  end.

Definition max_by {A} (key : A → Q) (l : list A) : option A :=
  match l with
  | [] => None
  | x :: l' => Some (max_go key x l')
  end.

(** [sum(key(x) for x in l)] of floats: from 0 and from left to right,
    every addition rounded (the loop of CPython up to 3.11; from 3.12 on
    [sum] also carries a correction term for the rounding errors). *)
Definition sum_by {A} (key : A → Q) (l : list A) : Q :=
  foldl (λ acc x, float (acc + key x)) 0%Q l.

End Py.

(** ** Data model *)

(** The [target] dict of a finding: the three keys the engine reads, and
    the remaining keys (such as [code_snippet]) in [target_extra]. *)
Record Target := mkTarget {
  file_path : option string;
  start_line : option Z;
  end_line : option Z;
  target_extra : gmap string string
}.

Global Instance Target_eq_dec : EqDecision Target.
Proof. solve_decision. Defined.

(** The [consensus_info] dict built by [_build_consensus_finding]. *)
Record ConsensusInfo := mkConsensusInfo {
  source_agents : list string;
  agreement_count : nat;
  consensus_confidence : Q;
  verified : bool
}.

(** A finding dict. *)
Record Finding := mkFinding {
  finding_description : option string;
  severity : option string;
  cvss_score : option Q;
  cwe : option (list string);
  target : option Target;
  confidence : option Q;
  source_agent : option string;
  rejection_reason : option string;
  consensus_info : option ConsensusInfo;
  extra : gmap string string
}.

(** The empty dict [{}]. *)
Definition empty_target : Target := mkTarget None None None ∅.

Definition empty_finding : Finding :=
  mkFinding None None None None None None None None None ∅.

Global Instance Finding_inhabited : Inhabited Finding := populate empty_finding.

(** [finding['source_agent'] = a] *)
Definition set_source_agent (a : string) (f : Finding) : Finding :=
  mkFinding (finding_description f) (severity f) (cvss_score f) (cwe f)
            (target f) (confidence f) (Some a) (rejection_reason f)
            (consensus_info f) (extra f).

(** [finding['rejection_reason'] = r] *)
Definition set_rejection_reason (r : string) (f : Finding) : Finding :=
  mkFinding (finding_description f) (severity f) (cvss_score f) (cwe f)
            (target f) (confidence f) (source_agent f) (Some r)
            (consensus_info f) (extra f).

(** [finding['consensus_info'] = i] *)
Definition set_consensus_info (i : ConsensusInfo) (f : Finding) : Finding :=
  mkFinding (finding_description f) (severity f) (cvss_score f) (cwe f)
            (target f) (confidence f) (source_agent f) (rejection_reason f)
            (Some i) (extra f).

(** One reviewer's result record: [{'agent': ..., 'findings': [...]}];
    the findings are references into the store. *)
Definition loc := nat.

Record AgentResult := mkAgentResult {
  agent : option string;
  findings : option (list loc)
}.

(** The engine object ([self]). *)
Record ConsensusEngine := mkEngine {
  min_agreement : Z;
  similarity_threshold : Q
}.

(** [ConsensusEngine(min_agreement=2, similarity_threshold=0.85)] *)
Definition default_engine : ConsensusEngine := mkEngine 2 (85 # 100).

(** ** [_are_similar] *)

(** The three signals, in the order the method tests them. The overlap
    quotient is formed only under [if cwe1 and cwe2], where the union is not
    empty; for set sizes a quotient of lengths exceeds 0.5 in binary64
    exactly when it does as a rational. *)
Definition cwe_signal (finding1 finding2 : Finding) : bool :=
  let cwe1 := Py.set (default [] (cwe finding1)) in
  let cwe2 := Py.set (default [] (cwe finding2)) in
  Py.truthy cwe1 && Py.truthy cwe2
  && Py.gt (Py.truediv (size (cwe1 ∩ cwe2)) (size (cwe1 ∪ cwe2))) (1 # 2).

Definition location_signal (finding1 finding2 : Finding) : bool :=
  let target1 := default empty_target (target finding1) in
  let target2 := default empty_target (target finding2) in
  bool_decide (file_path target1 = file_path target2)
  && (let line1 := default 0%Z (start_line target1) in
      let line2 := default 0%Z (start_line target2) in
      Z.abs (line1 - line2) <? 5)%Z.

Definition description_signal (finding1 finding2 : Finding) : bool :=
  let desc1 := Py.lower (default "" (finding_description finding1)) in
  let desc2 := Py.lower (default "" (finding_description finding2)) in
  let common_words := Py.set (Py.split desc1) ∩ Py.set (Py.split desc2) in
  bool_decide (3 < size common_words).

Definition _are_similar (self : ConsensusEngine)
    (finding1 finding2 : Finding) : bool :=
  if cwe_signal finding1 finding2 then true
  else if location_signal finding1 finding2 then true
  else if description_signal finding1 finding2 then true
  else false.

(** ** [_cluster_findings] *)

(** [enumerate(l)], counting from [n]. *)
Fixpoint enumerate_from {A} (n : nat) (l : list A) : list (nat * A) :=
  match l with
  | [] => []
  | x :: l' => (n, x) :: enumerate_from (S n) l'
  end.

Definition enumerate {A} (l : list A) : list (nat * A) := enumerate_from 0 l.

(** The inner loop [for j, finding2 in enumerate(findings)] run over the
    entries [js], with the cluster being built and the set of used indices
    as its state. *)
Fixpoint cluster_inner (self : ConsensusEngine) (h : gmap loc Finding)
    (i : nat) (finding1 : loc) (js : list (nat * loc))
    (cluster : list loc) (used_indices : gset nat) : list loc * gset nat :=
  match js with
  | [] => (cluster, used_indices)
  | (j, finding2) :: js' =>
      if bool_decide (j ∈ used_indices) || bool_decide (i = j) then
        cluster_inner self h i finding1 js' cluster used_indices
      else if _are_similar self (h !!! finding1) (h !!! finding2) then
        cluster_inner self h i finding1 js'
          (cluster ++ [finding2]) ({[j]} ∪ used_indices)
      else cluster_inner self h i finding1 js' cluster used_indices
  end.

(** The outer loop [for i, finding1 in enumerate(findings)] run over the
    entries [rest]; [all] is the whole enumeration, scanned by the inner
    loop. *)
Fixpoint cluster_outer (self : ConsensusEngine) (h : gmap loc Finding)
    (all rest : list (nat * loc))
    (clusters : list (list loc)) (used_indices : gset nat)
    : list (list loc) :=
  match rest with
  | [] => clusters
  | (i, finding1) :: rest' =>
      if bool_decide (i ∈ used_indices) then
        cluster_outer self h all rest' clusters used_indices
      else
        let '(cluster, used_indices') :=
          cluster_inner self h i finding1 all
            [finding1] ({[i]} ∪ used_indices) in
        cluster_outer self h all rest' (clusters ++ [cluster]) used_indices'
  end.

Definition _cluster_findings (self : ConsensusEngine) (h : gmap loc Finding)
    (findings : list loc) : list (list loc) :=
  cluster_outer self h (enumerate findings) (enumerate findings) [] ∅.

(** ** [_build_consensus_finding] *)

(** [f.get('confidence', 0.5)], a float. *)
Definition confidence_or_default (f : Finding) : Q :=
  Py.float (default (1 # 2)%Q (confidence f)).

(** The method reads the members of the cluster and writes only into the
    fresh dict obtained by [base_finding.copy()], so it is a function of the
    members' current values. It raises on an empty cluster ([max] of an
    empty sequence) and on a member without the key [source_agent]
    ([f['source_agent']]). *)
Definition _build_consensus_finding (self : ConsensusEngine)
    (cluster : list Finding) : option Finding :=
  base_finding ← Py.max_by confidence_or_default cluster;
  source_agents ← mapM source_agent cluster;
  let avg_confidence :=
    Py.truediv_float (Py.sum_by confidence_or_default cluster)
      (length cluster) in
  let consensus := base_finding in
  Some (set_consensus_info
          {| source_agents := source_agents;
             agreement_count := length cluster;
             consensus_confidence := Py.round2 avg_confidence;
             verified := true |}
          consensus).

(** ** [build_consensus] *)

Record Statistics := mkStatistics {
  total_findings : nat;
  consensus_count : nat;
  rejected_count : nat
}.

(** The returned dict. The consensus findings are fresh dicts, the rejected
    findings are the input objects themselves. *)
Record ConsensusResult := mkConsensusResult {
  consensus_findings : list Finding;
  rejected_findings : list loc;
  total_agents : nat;
  agreement_threshold : Z;
  statistics : Statistics
}.

(** [for finding in result.get('findings', [])]: tag and collect. *)
Fixpoint collect_findings (agent_name : string) (fs : list loc)
    (all_findings : list loc) (h : gmap loc Finding)
    : list loc * gmap loc Finding :=
  match fs with
  | [] => (all_findings, h)
  | finding :: fs' =>
      collect_findings agent_name fs' (all_findings ++ [finding])
        (<[finding := set_source_agent agent_name (h !!! finding)]> h)
  end.

(** [for result in agent_results] *)
Fixpoint collect_results (agent_results : list AgentResult)
    (all_findings : list loc) (h : gmap loc Finding)
    : list loc * gmap loc Finding :=
  match agent_results with
  | [] => (all_findings, h)
  | result :: rs =>
      let agent_name := default "unknown" (agent result) in
      let '(all_findings', h') :=
        collect_findings agent_name (default [] (findings result))
          all_findings h in
      collect_results rs all_findings' h'
  end.

(** [f"Only {n} agent(s) agreed"] *)
Definition rejection_text (n : nat) : string :=
  "Only " +:+ pretty n +:+ " agent(s) agreed".

(** [for finding in cluster] of the rejection branch; [n] is
    [len(cluster)]. *)
Fixpoint reject_cluster (n : nat) (cluster : list loc)
    (rejected : list loc) (h : gmap loc Finding)
    : list loc * gmap loc Finding :=
  match cluster with
  | [] => (rejected, h)
  | finding :: cluster' =>
      reject_cluster n cluster' (rejected ++ [finding])
        (<[finding := set_rejection_reason (rejection_text n) (h !!! finding)]> h)
  end.

(** [for cluster in finding_clusters] *)
Fixpoint decide_clusters (self : ConsensusEngine)
    (finding_clusters : list (list loc))
    (consensus : list Finding) (rejected : list loc) (h : gmap loc Finding)
    : option (list Finding * list loc * gmap loc Finding) :=
  match finding_clusters with
  | [] => Some (consensus, rejected, h)
  | cluster :: cs =>
      if (min_agreement self <=? Z.of_nat (length cluster))%Z then
        c ← _build_consensus_finding self ((h !!!.) <$> cluster);
        decide_clusters self cs (consensus ++ [c]) rejected h
      else
        let '(rejected', h') :=
          reject_cluster (length cluster) cluster rejected h in
        decide_clusters self cs consensus rejected' h'
  end.

(** The method, from a store [h]: the result and the store it leaves. *)
Definition build_consensus (self : ConsensusEngine)
    (agent_results : list AgentResult) (h : gmap loc Finding)
    : option (ConsensusResult * gmap loc Finding) :=
  let '(all_findings, h1) := collect_results agent_results [] h in
  let finding_clusters := _cluster_findings self h1 all_findings in
  '(consensus, rejected, h2) ← decide_clusters self finding_clusters [] [] h1;
  Some ({| consensus_findings := consensus;
           rejected_findings := rejected;
           total_agents := length agent_results;
           agreement_threshold := min_agreement self;
           statistics :=
             {| total_findings := length all_findings;
                consensus_count := length consensus;
                rejected_count := length rejected |} |},
        h2).

(** ** Vocabulary of the statements *)

(** [m] is the entry at index [k] of [l], no entry has a larger key, and
    every entry before it has a strictly smaller key: the first entry with
    the highest key. *)
Definition first_maximum {A} (key : A → Q) (l : list A) (k : nat) (m : A)
    : Prop :=
  l !! k = Some m
  ∧ (∀ j x, l !! j = Some x → (key x <= key m)%Q)
  ∧ (∀ j x, j < k → l !! j = Some x → (key x < key m)%Q).

(** A binary64 number: [m * 2^q] with at most 53 bits in [m] and no place
    below [2^-1074] (the overflow threshold is left out). *)
Definition binary64 (x : Q) : Prop :=
  ∃ m q : Z,
    (-1074 ≤ q)%Z ∧ (Z.abs m ≤ 2 ^ 53)%Z ∧ (x == inject_Z m * 2 ^ q)%Q.

(** [_are_similar] on two references, read in the store [h]. *)
Definition similar_in (self : ConsensusEngine) (h : gmap loc Finding)
    (l1 l2 : loc) : bool :=
  _are_similar self (h !!! l1) (h !!! l2).

(** The entries of an enumeration whose index is not in [used]. *)
Definition unused (used : gset nat) (entries : list (nat * loc))
    : list (nat * loc) :=
  filter (λ p, p.1 ∉ used) entries.

(** The entries the inner loop started at [used] appends to the cluster of
    the seed [finding1]. *)
Definition picked (self : ConsensusEngine) (h : gmap loc Finding)
    (finding1 : loc) (used : gset nat) (entries : list (nat * loc))
    : list (nat * loc) :=
  filter (λ p, (p.1 ∉ used) ∧ similar_in self h finding1 p.2 = true) entries.

(** No object belongs to two different clusters of the list. *)
Fixpoint separated (clusters : list (list loc)) : Prop :=
  match clusters with
  | [] => True
  | c :: cs => (∀ l c', l ∈ c → c' ∈ cs → l ∉ c') ∧ separated cs
  end.

(** A cluster built around a seed: every member is similar to the seed,
    and no entry still unused is. *)
Definition seeded (self : ConsensusEngine) (h : gmap loc Finding)
    (all : list (nat * loc)) (used : gset nat) (c : list loc) : Prop :=
  ∃ s, (∀ l, l ∈ c → similar_in self h s l = true)
       ∧ (∀ p, p ∈ all → p.1 ∉ used → similar_in self h s p.2 = false).

(** The invariant of the outer loop of [_cluster_findings]: the clusters
    built so far together with the unused entries hold every entry of the
    enumeration once; every cluster is non-empty and built around a seed;
    no object is in two clusters. *)
Definition cluster_inv (self : ConsensusEngine) (h : gmap loc Finding)
    (all : list (nat * loc)) (clusters : list (list loc))
    (used : gset nat) : Prop :=
  concat clusters ++ (unused used all).*2 ≡ₚ all.*2
  ∧ Forall (λ c, c ≠ []) clusters
  ∧ Forall (seeded self h all used) clusters
  ∧ separated clusters.

(** The keys of a finding other than the two tags [source_agent] and
    [rejection_reason]. *)
Definition untagged (f : Finding) :=
  (finding_description f, severity f, cvss_score f, cwe f, target f,
   confidence f, consensus_info f, extra f).

(** The cluster meets the agreement threshold:
    [len(cluster) >= self.min_agreement]. *)
Definition agreed (self : ConsensusEngine) (c : list loc) : Prop :=
  (min_agreement self <= Z.of_nat (length c))%Z.

Global Instance agreed_dec self c : Decision (agreed self c).
Proof. unfold agreed. apply _. Defined.

(** All findings of all reviewers, in input order. *)
Definition input_findings (agent_results : list AgentResult) : list loc :=
  concat ((λ r, default [] (findings r)) <$> agent_results).

(** The sum of the [agreement_count]s of a list of consensus findings. *)
Definition agreement_total (fs : list Finding) : nat :=
  sum_list_with (λ f, from_option agreement_count 0 (consensus_info f)) fs.

(** From [h] to [h'] only [source_agent] was written, and only on the
    objects [touched]. *)
Definition tags_source (touched : list loc) (h h' : gmap loc Finding)
    : Prop :=
  ∀ l, untagged (h' !!! l) = untagged (h !!! l)
       ∧ rejection_reason (h' !!! l) = rejection_reason (h !!! l)
       ∧ (l ∈ touched → is_Some (source_agent (h' !!! l)))
       ∧ (l ∉ touched → h' !!! l = h !!! l).

(** From [h] to [h'] only [rejection_reason] was written, and only on the
    objects [touched]. *)
Definition tags_rejection (touched : list loc) (h h' : gmap loc Finding)
    : Prop :=
  ∀ l, untagged (h' !!! l) = untagged (h !!! l)
       ∧ source_agent (h' !!! l) = source_agent (h !!! l)
       ∧ (l ∉ touched → h' !!! l = h !!! l).

(** ** Sample data *)

(** [{'target': {'start_line': 100}}]: a location without a file path. *)
Definition line_only_finding : Finding :=
  mkFinding None None None None (Some (mkTarget None (Some 100%Z) None ∅))
    None None None None ∅.

(** Two findings without any location, of different categories. *)
Definition sqli_finding : Finding :=
  mkFinding (Some "SQL injection in login") (Some "High") None
    (Some ["CWE-89"]) None (Some (9 # 10)) (Some "gpt") None None ∅.

Definition xss_finding : Finding :=
  mkFinding (Some "Reflected XSS") (Some "Medium") None
    (Some ["CWE-79"]) None None (Some "grok") None None ∅.


(** The scenario of two reviewers reporting the same file [app.py], at
    lines 10 and 12, and a third, unrelated finding. *)
Definition app_py_10 : Finding :=
  mkFinding (Some "SQL injection in login") (Some "High") (Some (9 # 1))
    (Some ["CWE-89"])
    (Some (mkTarget (Some "app.py") (Some 10%Z) (Some 14%Z) ∅))
    (Some (9 # 10)) None None None ∅.

Definition app_py_12 : Finding :=
  mkFinding (Some "Hardcoded secret key") (Some "Medium") None
    (Some ["CWE-798"]) (Some (mkTarget (Some "app.py") (Some 12%Z) None ∅))
    (Some (7 # 10)) None None None ∅.

Definition util_py_80 : Finding :=
  mkFinding (Some "Weak hash") (Some "Low") None
    (Some ["CWE-327"]) (Some (mkTarget (Some "util.py") (Some 80%Z) None ∅))
    None None None None ∅.

Definition sample_store : gmap loc Finding :=
  <[0 := app_py_10]> (<[1 := app_py_12]> (<[2 := util_py_80]> ∅)).

Definition two_reviewers : list AgentResult :=
  [mkAgentResult (Some "gpt") (Some [0]);
   mkAgentResult (Some "grok") (Some [1])].

Definition three_reviewers : list AgentResult :=
  [mkAgentResult (Some "gpt") (Some [0; 2]);
   mkAgentResult (Some "grok") (Some [1]);
   mkAgentResult None None].

(** Reviewers that returned nothing: an empty list, and the error
    placeholder without the key [findings]. *)
Definition silent_reviewers : list AgentResult :=
  [mkAgentResult (Some "gpt") (Some []); mkAgentResult (Some "grok") None].

(** The result of a run without findings for [n] reviewers. *)
Definition empty_result (self : ConsensusEngine) (n : nat) : ConsensusResult :=
  {| consensus_findings := [];
     rejected_findings := [];
     total_agents := n;
     agreement_threshold := min_agreement self;
     statistics :=
       {| total_findings := 0; consensus_count := 0; rejected_count := 0 |} |}.

(** * Further definitions *)

(** ** Clustering without indices *)

(** The first finding seeds a cluster that takes, in order, every later
    finding similar to it; the findings left over are clustered in the same
    way. [n] bounds the number of clusters. *)
Fixpoint greedy_clusters (sim : loc → loc → bool) (n : nat) (fs : list loc)
    : list (list loc) :=
  match n, fs with
  | S n', x :: rest =>
      (x :: filter (λ y, sim x y = true) rest)
      :: greedy_clusters sim n' (filter (λ y, sim x y ≠ true) rest)
  | _, _ => []
  end.


(** ** Results that differ in the number of reviewers only *)

(** The result [r] with one more reviewer counted. *)
Definition with_one_more_agent (r : ConsensusResult) : ConsensusResult :=
  {| consensus_findings := consensus_findings r;
     rejected_findings := rejected_findings r;
     total_agents := S (total_agents r);
     agreement_threshold := agreement_threshold r;
     statistics := statistics r |}.

(** A reviewer that failed, as [analyze_code_multi_agent] records it:
    [{"agent": name, "error": ..., "findings": []}]. *)
Definition failed_reviewer (name : string) : AgentResult :=
  mkAgentResult (Some name) (Some []).


(** ** More sample findings *)

(** Two descriptions with four words in common, in different case. *)
Definition form_finding : Finding :=
  mkFinding (Some "SQL Injection in login form") None None None
    (Some (mkTarget (Some "a.py") (Some 1%Z) None ∅)) None None None None ∅.

Definition form_finding' : Finding :=
  mkFinding (Some "sql injection found in LOGIN handler") None None None
    (Some (mkTarget (Some "b.py") (Some 90%Z) None ∅)) None None None None ∅.

(** The same two categories, listed in another order and twice. *)
Definition two_cwe_finding : Finding :=
  mkFinding None None None (Some ["CWE-89"; "CWE-20"])
    (Some (mkTarget (Some "a.py") (Some 1%Z) None ∅)) None None None None ∅.

Definition two_cwe_finding' : Finding :=
  mkFinding None None None (Some ["CWE-20"; "CWE-89"; "CWE-20"])
    (Some (mkTarget (Some "b.py") (Some 90%Z) None ∅)) None None None None ∅.


(** ** More Python built-ins: substrings and separators *)

Module PyStr.

(** [s.startswith(p)] *)
Fixpoint startswith (p s : string) : bool :=
  match p, s with
  | EmptyString, _ => true
  | String a p', String b s' =>
      if decide (a = b) then startswith p' s' else false
  | String _ _, EmptyString => false
  end.

(** [sub in s] *)
Fixpoint contains (sub s : string) : bool :=
  startswith sub s
  || match s with
     | EmptyString => false
     | String _ s' => contains sub s'
     end.

(** [s.split(sep)] for a separator of one character: the pieces between
    the separators, empty pieces included. [cur] is the piece being read,
    reversed. *)
Fixpoint split_on_go (sep : ascii) (cur : list ascii) (s : string)
    : list string :=
  match s with
  | EmptyString => [String.string_of_list_ascii (rev cur)]
  | String c s' =>
      if decide (c = sep)
      then String.string_of_list_ascii (rev cur) :: split_on_go sep [] s'
      else split_on_go sep (c :: cur) s'
  end.

Definition split_on (sep : ascii) (s : string) : list string :=
  split_on_go sep [] s.

(** [s.count(c)] for one character. *)
Fixpoint count (c : ascii) (s : string) : nat :=
  match s with
  | EmptyString => 0
  | String a s' => (if decide (a = c) then 1 else 0) + count c s'
  end.

(** The line feed character. *)
Definition newline : ascii := ascii_of_nat 10.

End PyStr.

(** ** [FindingVerifierTool.execute] ([src/tools/code_analyzer.py]) *)

Module FindingVerifierTool.

(** The returned dict. *)
Record Verification := mkVerification {
  is_valid : bool;
  confidence : Q;
  reason : string;
  recommended_action : string
}.

(** The three branches of the [if]/[elif]/[else]: the values of
    [is_valid], [confidence] and [reason] after it. *)
Definition verdict (code_context : string) : bool * Q * string :=
  if PyStr.contains "test" (Py.lower code_context)
     || PyStr.contains "mock" (Py.lower code_context)
  then (false, (3 # 10)%Q, "Code appears to be in test/mock context")
  else if PyStr.contains "example" (Py.lower code_context)
          || PyStr.contains "demo" (Py.lower code_context)
  then (false, (4 # 10)%Q, "Code appears to be example/demo code")
  else (true, (85 # 100)%Q, "Finding appears valid based on code analysis").

(** [confidence < 0.7] is [0.7 > confidence]. *)
Definition execute (finding_description code_context severity : string)
    : Verification :=
  let '(is_valid, confidence, reason) := verdict code_context in
  {| is_valid := is_valid;
     confidence := confidence;
     reason := reason;
     recommended_action :=
       if Py.gt (7 # 10) confidence then "Review manually"
       else "Address immediately" |}.

End FindingVerifierTool.


(** ** Regular expressions ([re.search]) *)

(** The patterns of the analyzer use literals, character classes,
    concatenation, alternation and the repetitions [*] and [+]. Whether
    [re.search] finds a match depends only on the language of the pattern,
    which is decided here by Brzozowski derivatives. *)
Module Re.

Inductive regex : Type :=
  | Empty
  | Eps
  | Chr (p : ascii → bool)
  | Seq (r1 r2 : regex)
  | Alt (r1 r2 : regex)
  | Star (r : regex).

(** The pattern matches the empty string. *)
Fixpoint nullable (r : regex) : bool :=
  match r with
  | Empty => false
  | Eps => true
  | Chr _ => false
  | Seq r1 r2 => nullable r1 && nullable r2
  | Alt r1 r2 => nullable r1 || nullable r2
  | Star _ => true
  end.

(** The pattern of what may follow the character [c]. *)
Fixpoint deriv (c : ascii) (r : regex) : regex :=
  match r with
  | Empty => Empty
  | Eps => Empty
  | Chr p => if p c then Eps else Empty
  | Seq r1 r2 =>
      if nullable r1 then Alt (Seq (deriv c r1) r2) (deriv c r2)
      else Seq (deriv c r1) r2
  | Alt r1 r2 => Alt (deriv c r1) (deriv c r2)
  | Star r1 => Seq (deriv c r1) (Star r1)
  end.

(** [re.fullmatch(r, s) is not None] *)
Fixpoint fullmatch (r : regex) (s : list ascii) : bool :=
  match s with
  | [] => nullable r
  | c :: s' => fullmatch (deriv c r) s'
  end.

(** Any character, the line feed included. *)
Definition any : regex := Chr (λ _, true).

(** [.] without [re.DOTALL]: any character but the line feed. *)
Definition dot : regex := Chr (λ c, negb (bool_decide (c = PyStr.newline))).

(** [\s], on ASCII text. *)
Definition space : regex := Chr Py.isspace.

(** One literal character; with [re.IGNORECASE], up to the case of the
    ASCII letters. On text that is not ASCII the flag also lets [s], [k]
    and [i] match the long s, the Kelvin sign and the dotted and dotless
    I, which these patterns leave out. *)
Definition chr (c : ascii) : regex := Chr (λ x, bool_decide (x = c)).

Definition chr_ci (c : ascii) : regex :=
  Chr (λ x, bool_decide (Py.lower_ascii x = Py.lower_ascii c)).

(** A literal string; with [re.IGNORECASE], up to case (of ASCII). *)
Fixpoint lit (s : string) : regex :=
  match s with
  | EmptyString => Eps
  | String c s' => Seq (chr c) (lit s')
  end.

Fixpoint lit_ci (s : string) : regex :=
  match s with
  | EmptyString => Eps
  | String c s' => Seq (chr_ci c) (lit_ci s')
  end.

(** [[...]] and [[^...]] *)
Definition one_of (cs : list ascii) : regex :=
  Chr (λ x, bool_decide (x ∈ cs)).

Definition none_of (cs : list ascii) : regex :=
  Chr (λ x, negb (bool_decide (x ∈ cs))).

(** [r+] *)
Definition plus (r : regex) : regex := Seq r (Star r).

(** [r1 r2 ... rn] *)
Definition seqs (rs : list regex) : regex := foldr Seq Eps rs.

(** [r1|r2|...|rn] *)
Definition alts (rs : list regex) : regex := foldr Alt Empty rs.

(** [re.search(r, s)] is not [None]: some substring of [s] matches. *)
Definition search (r : regex) (s : string) : bool :=
  fullmatch (Seq (Star any) (Seq r (Star any)))
    (String.list_ascii_of_string s).

(** The strings of the language of a pattern. *)
Inductive Matches : regex → list ascii → Prop :=
  | MEps : Matches Eps []
  | MChr p c : p c = true → Matches (Chr p) [c]
  | MSeq r1 r2 s1 s2 :
      Matches r1 s1 → Matches r2 s2 → Matches (Seq r1 r2) (s1 ++ s2)
  | MAltL r1 r2 s : Matches r1 s → Matches (Alt r1 r2) s
  | MAltR r1 r2 s : Matches r2 s → Matches (Alt r1 r2) s
  | MStarNil r : Matches (Star r) []
  | MStarApp r s1 s2 :
      Matches r s1 → Matches (Star r) s2 → Matches (Star r) (s1 ++ s2).

End Re.

(** ** [CodeAnalyzerTool.execute] ([src/tools/code_analyzer.py]) *)

Module CodeAnalyzerTool.

(** One entry of [vulnerabilities]; the key [type] is the field [kind],
    and [rai_category] is present on the prompt-injection entry only. *)
Record Vulnerability := mkVulnerability {
  kind : string;
  severity : string;
  pattern : string;
  line_number : option nat;
  rai_category : option string
}.

(** The returned dict. *)
Record Analysis := mkAnalysis {
  file_path : string;
  language : string;
  line_count : nat;
  vulnerabilities_found : nat;
  vulnerabilities : list Vulnerability;
  analysis_complete : bool
}.

(** The double and the single quote, the two characters of the class
    written [Q] below (and excluded by [^Q]). *)
Definition quotes : list ascii := [ascii_of_nat 34; ascii_of_nat 39].

(** [execute\s*\(\s*Q.*%s.*Q.*%] *)
Definition sql_injection_re : Re.regex :=
  Re.seqs [Re.lit "execute"; Re.Star Re.space; Re.chr "("; Re.Star Re.space;
           Re.one_of quotes; Re.Star Re.dot; Re.lit "%s"; Re.Star Re.dot;
           Re.one_of quotes; Re.Star Re.dot; Re.chr "%"].

(** [render_template.*\{\{.*\|safe\}\}] *)
Definition xss_re : Re.regex :=
  Re.seqs [Re.lit "render_template"; Re.Star Re.dot; Re.lit "{{";
           Re.Star Re.dot; Re.lit "|safe}}"].

(** [password\s*=\s*Q(^Q)+Q] with [re.IGNORECASE] *)
Definition credentials_re : Re.regex :=
  Re.seqs [Re.lit_ci "password"; Re.Star Re.space; Re.chr "=";
           Re.Star Re.space; Re.one_of quotes;
           Re.plus (Re.none_of quotes); Re.one_of quotes].

(** [openai|anthropic|model\.generate|llm] with [re.IGNORECASE] *)
Definition llm_words : list string :=
  ["openai"; "anthropic"; "model.generate"; "llm"].

Definition llm_re : Re.regex := Re.alts (Re.lit_ci <$> llm_words).

(** [input_validation|sanitize|filter] with [re.IGNORECASE] *)
Definition validation_words : list string :=
  ["input_validation"; "sanitize"; "filter"].

Definition validation_re : Re.regex :=
  Re.alts (Re.lit_ci <$> validation_words).

(** The four entries the method can append. *)
Definition sql_injection : Vulnerability :=
  mkVulnerability "SQL Injection" "Critical"
    "String formatting in SQL query" None None.

Definition xss : Vulnerability :=
  mkVulnerability "Cross-Site Scripting (XSS)" "High"
    "Unsafe template rendering" None None.

Definition hardcoded_credentials : Vulnerability :=
  mkVulnerability "Hardcoded Credentials" "High"
    "Plaintext password in code" None None.

Definition prompt_injection : Vulnerability :=
  mkVulnerability "Prompt Injection Risk" "High"
    "LLM input without validation" None (Some "Safety").

(** [if cond: vulnerabilities.append(v)] *)
Definition append_if (cond : bool) (v : Vulnerability)
    (vulnerabilities : list Vulnerability) : list Vulnerability :=
  if cond then vulnerabilities ++ [v] else vulnerabilities.

Definition execute (file_path code_snippet language analysis_type : string)
    : Analysis :=
  let vulnerabilities := [] in
  let vulnerabilities :=
    if decide (Py.lower language = "python") then
      let vulnerabilities :=
        append_if (Re.search sql_injection_re code_snippet)
          sql_injection vulnerabilities in
      let vulnerabilities :=
        append_if (Re.search xss_re code_snippet) xss vulnerabilities in
      append_if (Re.search credentials_re code_snippet)
        hardcoded_credentials vulnerabilities
    else vulnerabilities in
  let vulnerabilities :=
    if bool_decide (analysis_type ∈ ["rai"; "both"]) then
      if Re.search llm_re code_snippet then
        append_if (negb (Re.search validation_re code_snippet))
          prompt_injection vulnerabilities
      else vulnerabilities
    else vulnerabilities in
  let line_count := length (PyStr.split_on PyStr.newline code_snippet) in
  {| file_path := file_path;
     language := language;
     line_count := line_count;
     vulnerabilities_found := length vulnerabilities;
     vulnerabilities := vulnerabilities;
     analysis_complete := true |}.

End CodeAnalyzerTool.

(** Snippets for the analyzer. *)
Definition llm_snippet : string :=
  "import OpenAI
client = OpenAI()
client.chat(prompt)".

Definition password_snippet : string :=
  "PASSWORD = 'hunter2'
db.connect(PASSWORD)
".


(** ** [generate_report] *)

Module Report.

(** [s * n] *)
Fixpoint repeat_string (s : string) (n : nat) : string :=
  match n with
  | 0 => EmptyString
  | S n' => s +:+ repeat_string s n'
  end.

(** The separator of the final ["\n".join(report)]. *)
Definition line_feed : string := String PyStr.newline EmptyString.

(** Truth value of the [target] dict: it holds a key. *)
Definition target_truthy (t : Target) : bool :=
  match file_path t, start_line t, end_line t with
  | None, None, None => negb (bool_decide (target_extra t = ∅))
  | _, _, _ => true
  end.

Section Formatting.

(** The text of a float: [str(x)] in an f-string without format, and
    [format(x, ".2f")]. *)
Variable str_float : Q → string.
Variable format_2f : Q → string.

(** [report.append("=" * 80)] *)
Definition rule : string := repeat_string "=" 80.

(** The lines appended before the loop. *)
Definition header (consensus_result : ConsensusResult) : list string :=
  let stats := statistics consensus_result in
  [rule;
   "AI SECURITY SCANNER - CONSENSUS REPORT";
   rule;
   "";
   "Total Agents: " +:+ pretty (total_agents consensus_result);
   "Total Findings: " +:+ pretty (total_findings stats);
   "Consensus Findings: " +:+ pretty (consensus_count stats);
   "Rejected Findings: " +:+ pretty (rejected_count stats);
   "";
   rule;
   "VERIFIED FINDINGS (Multi-Agent Consensus)";
   rule;
   ""].

(** The [Location] line, appended when [target] is not empty. *)
Definition location_lines (finding : Finding) : list string :=
  let target := default empty_target (target finding) in
  if target_truthy target then
    ["   Location: " +:+ default "Unknown" (file_path target)
     +:+ " (lines " +:+ from_option pretty "?" (start_line target)
     +:+ "-" +:+ from_option pretty "?" (end_line target) +:+ ")"]
  else [].

(** The lines appended by one iteration of the loop, for the finding
    numbered [i]. *)
Definition block (i : nat) (finding : Finding) : list string :=
  let consensus_info := consensus_info finding in
  [pretty i +:+ ". " +:+ default "Unknown" (finding_description finding);
   "   Severity: " +:+ default "Unknown" (severity finding);
   "   CVSS Score: " +:+ from_option str_float "N/A" (cvss_score finding);
   "   CWE: " +:+ String.concat ", " (default [] (cwe finding));
   "   Agreed by: "
   +:+ String.concat ", " (from_option source_agents [] consensus_info);
   "   Confidence: "
   +:+ format_2f (from_option consensus_confidence 0%Q consensus_info)]
  ++ location_lines finding
  ++ [""].

(** [for i, finding in enumerate(consensus_findings, 1)] *)
Fixpoint report_findings (i : nat) (fs : list Finding)
    (report : list string) : list string :=
  match fs with
  | [] => report
  | finding :: fs' => report_findings (S i) fs' (report ++ block i finding)
  end.

(** The list [report] when the loop has ended. *)
Definition report_lines (consensus_result : ConsensusResult) : list string :=
  report_findings 1 (consensus_findings consensus_result)
    (header consensus_result).

Definition generate_report (self : ConsensusEngine)
    (consensus_result : ConsensusResult) : string :=
  String.concat line_feed (report_lines consensus_result).

End Formatting.

End Report.

(** * Properties *)

(** ** The model at work *)

Example split_lower_example :
  Py.split (Py.lower "  SQL Injection in  Login ")
  = ["sql"; "injection"; "in"; "login"].
Proof. reflexivity. Qed.

Example round2_example :
  Py.round2 (1 # 8) = Py.float (12 # 100)
  ∧ Py.round2 (3 # 8) = Py.float (38 # 100)
  ∧ Py.round2 (Py.float (2675 # 1000)) = Py.float (267 # 100).
Proof. split_and!; vm_compute; reflexivity. Qed.

Example rejection_text_example :
  rejection_text 1 = "Only 1 agent(s) agreed".
Proof. reflexivity. Qed.

(** Same file, lines 10 and 12: similar whatever the categories; the third
    finding, in another file, stays alone. The clusters come out in the
    order of their seeds. *)
Example cluster_example :
  _cluster_findings default_engine sample_store [0; 2; 1] = [[0; 1]; [2]].
Proof. vm_compute. reflexivity. Qed.

Example consensus_example :
  (λ r, (source_agents <$> (consensus_findings r.1 ≫= λ f,
                              option_list (consensus_info f)),
         rejected_findings r.1, statistics r.1))
    <$> build_consensus default_engine three_reviewers sample_store
  = Some ([["gpt"; "grok"]], [2], mkStatistics 3 1 1).
Proof. vm_compute. reflexivity. Qed.

(** ** Similarity *)

Section Similarity.

Implicit Types a b : Finding.

Lemma cwe_signal_comm a b : cwe_signal a b = cwe_signal b a.
Proof.
  unfold cwe_signal; cbn zeta.
  rewrite (comm_L (∩) (Py.set (default [] (cwe a)))).
  rewrite (comm_L (∪) (Py.set (default [] (cwe a)))).
  by rewrite (andb_comm (Py.truthy (Py.set (default [] (cwe a))))).
Qed.

Lemma location_signal_comm a b : location_signal a b = location_signal b a.
Proof.
  unfold location_signal; cbn zeta.
  f_equal.
  - apply bool_decide_ext. split; congruence.
  - rewrite <- Z.abs_opp. f_equal. f_equal. lia.
Qed.

Lemma description_signal_comm a b :
  description_signal a b = description_signal b a.
Proof.
  unfold description_signal; cbn zeta.
  by rewrite (comm_L (∩) (Py.set (Py.split (Py.lower (default "" (finding_description a)))))).
Qed.

(** A finding is similar to itself: its file path equals itself and the
    distance of its start line to itself is 0. *)
Lemma location_signal_refl a : location_signal a a = true.
Proof.
  unfold location_signal; cbn zeta.
  rewrite bool_decide_eq_true_2 by done.
  rewrite Z.sub_diag. done.
Qed.

Lemma are_similar_refl self a : _are_similar self a a = true.
Proof.
  unfold _are_similar. rewrite location_signal_refl. by destruct (cwe_signal a a).
Qed.

End Similarity.

(** C6: [_are_similar(a, b) == _are_similar(b, a)] for every pair of
    findings: each of the three signals (category overlap above one half,
    same file path with start lines less than 5 apart, more than 3 common
    description words) is commutative, and so is their disjunction. *)
Theorem are_similar_symmetric (self : ConsensusEngine) (a b : Finding) :
  cwe_signal a b = cwe_signal b a
  ∧ location_signal a b = location_signal b a
  ∧ description_signal a b = description_signal b a
  ∧ _are_similar self a b = _are_similar self b a.
Proof.
  split_and!.
  - apply cwe_signal_comm.
  - apply location_signal_comm.
  - apply description_signal_comm.
  - unfold _are_similar.
    by rewrite cwe_signal_comm, location_signal_comm, description_signal_comm.
Qed.

(** Two findings without a file path need not be similar: a start line may
    be present without a path, and then the line distance decides. Here the
    lines are 100 and 0 (absent), with no category and no description. *)
Lemma locationless_not_always_similar :
  file_path (default empty_target (target line_only_finding)) = None
  ∧ file_path (default empty_target (target empty_finding)) = None
  ∧ _are_similar default_engine line_only_finding empty_finding = false.
Proof. split_and!; [done|done|]. vm_compute. reflexivity. Qed.

(** C10, amended: when neither target holds a file path the two paths
    compare equal, so the location signal is exactly the test that the
    start lines (0 when absent) are less than 5 apart; the pair is similar
    whenever that distance is below 5, in particular whenever neither
    target holds a start line. *)
Theorem are_similar_without_file_path (self : ConsensusEngine) (a b : Finding) :
  file_path (default empty_target (target a)) = None →
  file_path (default empty_target (target b)) = None →
  let line1 := default 0%Z (start_line (default empty_target (target a))) in
  let line2 := default 0%Z (start_line (default empty_target (target b))) in
  location_signal a b = (Z.abs (line1 - line2) <? 5)%Z
  ∧ ((Z.abs (line1 - line2) < 5)%Z → _are_similar self a b = true)
  ∧ (start_line (default empty_target (target a)) = None →
     start_line (default empty_target (target b)) = None →
     _are_similar self a b = true).
Proof.
  intros Ha Hb line1 line2.
  assert (Hloc : location_signal a b = (Z.abs (line1 - line2) <? 5)%Z).
  { unfold location_signal; cbn zeta. rewrite Ha, Hb.
    by rewrite bool_decide_eq_true_2. }
  split_and!; [done | |].
  - intros Hd. unfold _are_similar. rewrite Hloc.
    apply Z.ltb_lt in Hd. rewrite Hd. by destruct (cwe_signal a b).
  - intros Hla Hlb. unfold _are_similar. rewrite Hloc.
    subst line1 line2. rewrite Hla, Hlb. by destruct (cwe_signal a b).
Qed.

Lemma are_similar_without_file_path_witness :
  location_signal sqli_finding xss_finding = true
  ∧ _are_similar default_engine sqli_finding xss_finding = true.
Proof.
  destruct (are_similar_without_file_path default_engine sqli_finding
              xss_finding eq_refl eq_refl) as (H1 & _ & H3).
  split; [exact H1 | exact (H3 eq_refl eq_refl)].
Defined.

(** ** Python built-ins *)

Section Builtins.

Context {A : Type} (key : A → Q).

Lemma gt_true_iff (x y : Q) : Py.gt x y = true ↔ (y < x)%Q.
Proof.
  unfold Py.gt. rewrite negb_true_iff.
  split.
  - intros H. apply Qnot_le_lt. intros Hle.
    apply Qle_bool_iff in Hle. congruence.
  - intros H. destruct (Qle_bool x y) eqn:E; [|done].
    apply Qle_bool_iff in E. exfalso. by apply (Qlt_not_le y x).
Qed.

Lemma gt_false_iff (x y : Q) : Py.gt x y = false ↔ (x <= y)%Q.
Proof.
  unfold Py.gt. rewrite negb_false_iff. apply Qle_bool_iff.
Qed.

Lemma max_go_first_maximum (l pre : list A) (k : nat) (best : A) :
  first_maximum key pre k best →
  ∃ k', first_maximum key (pre ++ l) k' (Py.max_go key best l).
Proof.
  revert pre k best.
  induction l as [|x l IH]; intros pre k best (Hk & Hle & Hlt); simpl.
  - exists k. by rewrite app_nil_r.
  - rewrite (cons_middle x pre l), app_assoc.
    destruct (Py.gt (key x) (key best)) eqn:E.
    + apply gt_true_iff in E.
      apply (IH (pre ++ [x]) (length pre) x).
      split_and!.
      * by rewrite lookup_app_r, Nat.sub_diag.
      * intros j y Hj. apply lookup_app_Some in Hj as [Hj|[_ Hj]].
        -- apply Qlt_le_weak. eapply Qle_lt_trans; [by eapply Hle|done].
        -- apply list_lookup_singleton_Some in Hj as [_ <-]. apply Qle_refl.
      * intros j y Hjk Hj. rewrite lookup_app_l in Hj by done.
        eapply Qle_lt_trans; [by eapply Hle|done].
    + apply gt_false_iff in E.
      apply (IH (pre ++ [x]) k best).
      split_and!.
      * apply lookup_app_l_Some, Hk.
      * intros j y Hj. apply lookup_app_Some in Hj as [Hj|[_ Hj]].
        -- by eapply Hle.
        -- by apply list_lookup_singleton_Some in Hj as [_ <-].
      * intros j y Hjk Hj.
        assert (k < length pre) by (by eapply lookup_lt_Some).
        rewrite lookup_app_l in Hj by lia. by eapply Hlt.
Qed.

Lemma max_by_first_maximum (l : list A) :
  l ≠ [] → ∃ k m, Py.max_by key l = Some m ∧ first_maximum key l k m.
Proof.
  destruct l as [|x l]; [done|]. intros _.
  destruct (max_go_first_maximum l [x] 0 x) as [k Hk].
  - split_and!; [done| |lia].
    intros j y Hj. apply list_lookup_singleton_Some in Hj as [_ <-].
    apply Qle_refl.
  - exists k, (Py.max_go key x l). by split.
Qed.

End Builtins.

(** ** Floats *)

Lemma pow2_pos (k : Z) : (0 < 2 ^ k)%Q.
Proof. by apply Qpower_0_lt. Qed.

Lemma pow2_le (n m : Z) : (n ≤ m)%Z → (2 ^ n <= 2 ^ m)%Q.
Proof. intros. by apply Qpower_le_compat_l. Qed.

Lemma pow2_lt (n m : Z) : (n < m)%Z → (2 ^ n < 2 ^ m)%Q.
Proof. intros. by apply Qpower_lt_compat_l. Qed.

Lemma pow2_lt_inv (n m : Z) : (2 ^ n < 2 ^ m)%Q → (n < m)%Z.
Proof. intros. by apply (Qpower_lt_compat_l_inv 2). Qed.

Lemma pow2_Z (k : Z) : (0 ≤ k)%Z → (2 ^ k == inject_Z (2 ^ k))%Q.
Proof. intros. by rewrite (Zpower_Qpower 2 k). Qed.

Lemma pow2_add (n m : Z) : (2 ^ (n + m) == 2 ^ n * 2 ^ m)%Q.
Proof. by apply Qpower_plus. Qed.

Lemma pow2_sub (n m : Z) : (2 ^ (n - m) == 2 ^ n / 2 ^ m)%Q.
Proof. by apply Qpower_minus. Qed.

Lemma pow2_succ (n : Z) : (2 ^ (n + 1) == 2 * 2 ^ n)%Q.
Proof. rewrite pow2_add. change (2 ^ 1)%Q with 2%Q. ring. Qed.

(** ** Rounding to an integer *)

Lemma round_half_even_comp (x y : Q) :
  (x == y)%Q → Py.round_half_even x = Py.round_half_even y.
Proof.
  intros E. unfold Py.round_half_even.
  rewrite (Qfloor_comp x y E).
  assert (E' : (x - inject_Z (Qfloor y) == y - inject_Z (Qfloor y))%Q)
    by (by rewrite E).
  by rewrite (Qcompare_comp _ _ E' (1 # 2) (1 # 2) (Qeq_refl _)).
Qed.

Lemma round_half_even_Z (z : Z) : Py.round_half_even (inject_Z z) = z.
Proof.
  unfold Py.round_half_even. rewrite Qfloor_Z.
  assert (E : (inject_Z z - inject_Z z == 0)%Q) by ring.
  by rewrite (Qcompare_comp _ _ E (1 # 2) (1 # 2) (Qeq_refl _)).
Qed.

Lemma round_half_even_floor (x : Q) :
  Py.round_half_even x = Qfloor x ∨ Py.round_half_even x = (Qfloor x + 1)%Z.
Proof.
  unfold Py.round_half_even.
  destruct (_ ?= _)%Q; [destruct (Z.even _)| |]; auto.
Qed.

Lemma round_half_even_mono (x y : Q) :
  (x <= y)%Q → (Py.round_half_even x ≤ Py.round_half_even y)%Z.
Proof.
  intros Hxy.
  pose proof (Qfloor_resp_le _ _ Hxy) as Hf.
  destruct (decide (Qfloor x = Qfloor y)) as [E|NE].
  - unfold Py.round_half_even. rewrite <- E.
    set (f := Qfloor x).
    destruct (Qcompare_spec (x - inject_Z f) (1 # 2)),
      (Qcompare_spec (y - inject_Z f) (1 # 2));
      try (exfalso; lra); destruct (Z.even f); lia.
  - destruct (round_half_even_floor x) as [-> | ->],
      (round_half_even_floor y) as [-> | ->]; lia.
Qed.

(** ** The exponent *)

Lemma ilog2_spec (x : Q) :
  (0 < x)%Q → (2 ^ Py.ilog2 x <= x)%Q ∧ (x < 2 ^ (Py.ilog2 x + 1))%Q.
Proof.
  intros Hx. destruct x as [a b].
  assert (Ha : (0 < a)%Z) by (unfold Qlt in Hx; simpl in Hx; lia).
  unfold Py.ilog2. cbn [Qnum Qden].
  set (la := Z.log2 a). set (lb := Z.log2 (Z.pos b)).
  destruct (Z.log2_spec a Ha) as [Ha1 Ha2]. fold la in Ha1, Ha2.
  destruct (Z.log2_spec (Z.pos b) eq_refl) as [Hb1 Hb2]. fold lb in Hb1, Hb2.
  assert (Hla : (0 ≤ la)%Z) by apply Z.log2_nonneg.
  assert (Hlb : (0 ≤ lb)%Z) by apply Z.log2_nonneg.
  rewrite Zle_Qle, <- pow2_Z in Ha1, Hb1 by done.
  rewrite Zlt_Qlt, <- pow2_Z in Ha2, Hb2 by lia.
  replace (Z.succ la) with (la + 1)%Z in Ha2 by lia.
  replace (Z.succ lb) with (lb + 1)%Z in Hb2 by lia.
  rewrite pow2_succ in Ha2, Hb2.
  assert (Hab : ((a # b) * inject_Z (Z.pos b) == inject_Z a)%Q).
  { unfold Qeq, Qmult, inject_Z. simpl. lia. }
  pose proof (pow2_pos la) as Hpa. pose proof (pow2_pos lb) as Hpb.
  assert (Hd : (2 ^ (la - lb) * 2 ^ lb == 2 ^ la)%Q).
  { rewrite pow2_sub. field. lra. }
  assert (Hd1 : (2 ^ (la - lb + 1) == 2 * 2 ^ (la - lb))%Q) by apply pow2_succ.
  assert (Hd2 : (2 * 2 ^ (la - lb - 1) == 2 ^ (la - lb))%Q).
  { rewrite <- pow2_succ. by replace (la - lb - 1 + 1)%Z with (la - lb)%Z by lia. }
  pose proof (pow2_pos (la - lb)) as Hpd.
  pose proof (pow2_pos (la - lb - 1)) as Hpd'.
  set (x := a # b) in *. set (A := inject_Z a) in *.
  set (B := inject_Z (Z.pos b)) in *.
  destruct (Qle_bool (2 ^ (la - lb)) x) eqn:E.
  - apply Qle_bool_iff in E. split; [done|].
    rewrite Hd1. clearbody x A B. nra.
  - assert (Hlt : (x < 2 ^ (la - lb))%Q).
    { apply Qnot_le_lt. intros H. apply Qle_bool_iff in H. congruence. }
    replace (la - lb - 1 + 1)%Z with (la - lb)%Z by lia. split; [|done].
    clearbody x A B. nra.
Qed.

Lemma ilog2_unique (x : Q) (e : Z) :
  (0 < x)%Q → (2 ^ e <= x)%Q → (x < 2 ^ (e + 1))%Q → Py.ilog2 x = e.
Proof.
  intros Hx H1 H2. destruct (ilog2_spec x Hx) as [H3 H4].
  assert (Py.ilog2 x < e + 1)%Z by (apply pow2_lt_inv; lra).
  assert (e < Py.ilog2 x + 1)%Z by (apply pow2_lt_inv; lra).
  lia.
Qed.

Lemma ilog2_comp (x y : Q) :
  (0 < x)%Q → (x == y)%Q → Py.ilog2 x = Py.ilog2 y.
Proof.
  intros Hx E. assert (Hy : (0 < y)%Q) by (by rewrite <- E).
  destruct (ilog2_spec y Hy) as [H1 H2].
  apply ilog2_unique; [done|by rewrite E..].
Qed.

Lemma ilog2_mono (x y : Q) :
  (0 < x)%Q → (x <= y)%Q → (Py.ilog2 x ≤ Py.ilog2 y)%Z.
Proof.
  intros Hx Hxy. assert (Hy : (0 < y)%Q) by lra.
  destruct (ilog2_spec x Hx) as [H1 _], (ilog2_spec y Hy) as [_ H2].
  assert (Py.ilog2 x < Py.ilog2 y + 1)%Z by (apply pow2_lt_inv; lra).
  lia.
Qed.

(** ** Rounding to binary64 *)

Lemma ulp_exponent_pos (x : Q) :
  (0 < x)%Q → Py.ulp_exponent x = Z.max (Py.ilog2 x - 52) (-1074).
Proof.
  intros Hx. unfold Py.ulp_exponent. f_equal. f_equal.
  apply ilog2_comp.
  - rewrite Qabs_pos; lra.
  - apply Qabs_pos. lra.
Qed.

Lemma float_zero (x : Q) : (x == 0)%Q → Py.float x = 0%Q.
Proof.
  intros E. unfold Py.float.
  by rewrite (proj2 (Qeq_bool_iff x 0) E).
Qed.

Lemma float_unfold (x : Q) :
  ¬ (x == 0)%Q →
  (Py.float x
   == inject_Z (Py.round_half_even (x / 2 ^ Py.ulp_exponent x))
      * 2 ^ Py.ulp_exponent x)%Q.
Proof.
  intros Hx. unfold Py.float.
  destruct (Qeq_bool x 0) eqn:E.
  - by apply Qeq_bool_iff in E.
  - apply Qred_correct.
Qed.

(** A multiple of the last place on one side of [x] is on the same side of
    its float. *)
Lemma float_between (x : Q) (m : Z) :
  ¬ (x == 0)%Q →
  ((x <= inject_Z m * 2 ^ Py.ulp_exponent x)%Q →
   (Py.float x <= inject_Z m * 2 ^ Py.ulp_exponent x)%Q)
  ∧ ((inject_Z m * 2 ^ Py.ulp_exponent x <= x)%Q →
     (inject_Z m * 2 ^ Py.ulp_exponent x <= Py.float x)%Q).
Proof.
  intros Hx. rewrite (float_unfold x Hx).
  set (q := Py.ulp_exponent x).
  pose proof (pow2_pos q) as Hq.
  split; intros H.
  - apply Qmult_le_compat_r; [|lra].
    rewrite <- Zle_Qle. rewrite <- (round_half_even_Z m).
    apply round_half_even_mono. by apply Qle_shift_div_r.
  - apply Qmult_le_compat_r; [|lra].
    rewrite <- Zle_Qle. rewrite <- (round_half_even_Z m) at 1.
    apply round_half_even_mono. by apply Qle_shift_div_l.
Qed.

Lemma pow2_multiple (k q : Z) :
  (q ≤ k)%Z → (2 ^ k == inject_Z (2 ^ (k - q)) * 2 ^ q)%Q.
Proof.
  intros H. rewrite <- pow2_Z by lia. rewrite <- pow2_add.
  by replace (k - q + q)%Z with k by lia.
Qed.

Lemma float_nonneg (x : Q) : (0 <= x)%Q → (0 <= Py.float x)%Q.
Proof.
  intros Hx. destruct (Qeq_dec x 0) as [E|NE].
  - rewrite (float_zero x E). lra.
  - destruct (float_between x 0 NE) as [_ H].
    assert (E0 : (inject_Z 0 * 2 ^ Py.ulp_exponent x == 0)%Q) by ring.
    rewrite E0 in H. by apply H.
Qed.

Lemma float_mono_pos (x y : Q) :
  (0 < x)%Q → (x <= y)%Q → (Py.float x <= Py.float y)%Q.
Proof.
  intros Hx Hxy. assert (Hy : (0 < y)%Q) by lra.
  assert (NEx : ¬ (x == 0)%Q) by lra. assert (NEy : ¬ (y == 0)%Q) by lra.
  pose proof (ilog2_mono x y Hx Hxy) as He.
  pose proof (ulp_exponent_pos x Hx) as Hqx.
  pose proof (ulp_exponent_pos y Hy) as Hqy.
  destruct (ilog2_spec x Hx) as [_ Hx2], (ilog2_spec y Hy) as [Hy1 _].
  destruct (decide (Py.ulp_exponent x = Py.ulp_exponent y)) as [E|NE].
  - rewrite (float_unfold x NEx), (float_unfold y NEy), E.
    pose proof (pow2_pos (Py.ulp_exponent y)) as Hq.
    apply Qmult_le_compat_r; [|lra].
    rewrite <- Zle_Qle. apply round_half_even_mono.
    apply Qmult_le_compat_r; [done|].
    apply Qlt_le_weak, Qinv_lt_0_compat, Hq.
  - assert (Hlt : (Py.ilog2 x < Py.ilog2 y)%Z) by lia.
    apply (Qle_trans _ (2 ^ Py.ilog2 y)).
    + rewrite (pow2_multiple (Py.ilog2 y) (Py.ulp_exponent x)) by lia.
      apply float_between; [done|].
      rewrite <- pow2_multiple by lia.
      apply Qlt_le_weak. eapply Qlt_le_trans; [exact Hx2|].
      apply pow2_le. lia.
    + rewrite (pow2_multiple (Py.ilog2 y) (Py.ulp_exponent y)) by lia.
      apply float_between; [done|].
      by rewrite <- pow2_multiple by lia.
Qed.

Lemma float_mono (x y : Q) :
  (0 <= x)%Q → (x <= y)%Q → (Py.float x <= Py.float y)%Q.
Proof.
  intros Hx Hxy. destruct (Qeq_dec x 0) as [E|NE].
  - rewrite (float_zero x E). apply float_nonneg. lra.
  - apply float_mono_pos; [|done].
    destruct (Qlt_le_dec 0 x); [done|]. exfalso. apply NE. lra.
Qed.

(** The integers up to [2^53] are binary64 numbers. *)
Lemma float_Z (z : Z) :
  (0 ≤ z ≤ 2 ^ 53)%Z → (Py.float (inject_Z z) == inject_Z z)%Q.
Proof.
  intros [H0 H53].
  destruct (decide (z = 0%Z)) as [->|Hz0]; [reflexivity|].
  destruct (decide (z = (2 ^ 53)%Z)) as [->|Hz53]; [reflexivity|].
  assert (Hx : (0 < inject_Z z)%Q).
  { change 0%Q with (inject_Z 0). rewrite <- Zlt_Qlt. lia. }
  assert (NE : ¬ (inject_Z z == 0)%Q) by lra.
  destruct (ilog2_spec _ Hx) as [H1 H2].
  set (e := Py.ilog2 (inject_Z z)) in *.
  assert (He : (0 ≤ e ≤ 52)%Z).
  { split.
    - assert (0 < e + 1)%Z; [|lia]. apply pow2_lt_inv.
      eapply Qle_lt_trans; [|exact H2].
      change (2 ^ 0)%Q with (inject_Z 1). rewrite <- Zle_Qle. lia.
    - assert (e < 53)%Z; [|lia]. apply pow2_lt_inv.
      eapply Qle_lt_trans; [exact H1|].
      rewrite (pow2_Z 53) by lia. rewrite <- Zlt_Qlt. lia. }
  pose proof (ulp_exponent_pos _ Hx) as Hq. fold e in Hq.
  rewrite Z.max_l in Hq by lia.
  assert (Em : (inject_Z z
                == inject_Z (z * 2 ^ (52 - e))
                   * 2 ^ Py.ulp_exponent (inject_Z z))%Q).
  { rewrite Hq, inject_Z_mult, <- pow2_Z by lia.
    rewrite <- Qmult_assoc, <- pow2_add.
    replace (52 - e + (e - 52))%Z with 0%Z by lia.
    change (2 ^ 0)%Q with 1%Q. ring. }
  destruct (float_between (inject_Z z) (z * 2 ^ (52 - e)) NE) as [Hle Hge].
  rewrite <- Em in Hle, Hge.
  apply Qle_antisym; [apply Hle|apply Hge]; apply Qle_refl.
Qed.

(** ** The binary64 numbers *)

Lemma Qabs_scale (m : Z) (q : Z) :
  (Qabs (inject_Z m * 2 ^ q) == inject_Z (Z.abs m) * 2 ^ q)%Q.
Proof.
  rewrite Qabs_Qmult. rewrite (Qabs_pos (2 ^ q)).
  - apply Qmult_comp; [|reflexivity].
    unfold Qabs, inject_Z. simpl. reflexivity.
  - apply Qlt_le_weak, pow2_pos.
Qed.

Lemma Qabs_nonzero (x : Q) : ¬ (x == 0)%Q → (0 < Qabs x)%Q.
Proof.
  intros NE. destruct (Qle_lt_or_eq _ _ (Qabs_nonneg x)) as [H|H]; [done|].
  exfalso. apply NE. symmetry in H. revert H. clear.
  destruct x as [[|p|p] d]; unfold Qabs, Qeq; simpl; lia.
Qed.

Lemma ulp_exponent_comp (x y : Q) :
  ¬ (x == 0)%Q → (x == y)%Q → Py.ulp_exponent x = Py.ulp_exponent y.
Proof.
  intros NE E. unfold Py.ulp_exponent. f_equal. f_equal.
  apply ilog2_comp; [|by rewrite E].
  by apply Qabs_nonzero.
Qed.

Lemma float_comp (x y : Q) : (x == y)%Q → Py.float x = Py.float y.
Proof.
  intros E. destruct (Qeq_dec x 0) as [E0|NE].
  - rewrite (float_zero x E0). symmetry. apply float_zero. by rewrite <- E.
  - unfold Py.float.
    destruct (Qeq_bool x 0) eqn:Ex; [by apply Qeq_bool_iff in Ex|].
    destruct (Qeq_bool y 0) eqn:Ey.
    { apply Qeq_bool_iff in Ey. exfalso. apply NE. by rewrite E. }
    rewrite <- (ulp_exponent_comp x y NE E).
    apply Qred_complete.
    rewrite (round_half_even_comp (x / 2 ^ Py.ulp_exponent x)
               (y / 2 ^ Py.ulp_exponent x)); [reflexivity|].
    apply Qdiv_comp; [exact E|reflexivity].
Qed.

Lemma ulp_exponent_bound (x : Q) :
  ¬ (x == 0)%Q →
  (Qabs x < inject_Z (2 ^ 53) * 2 ^ Py.ulp_exponent x)%Q.
Proof.
  intros NE.
  assert (Hx : (0 < Qabs x)%Q).
  { by apply Qabs_nonzero. }
  destruct (ilog2_spec _ Hx) as [_ H]. unfold Py.ulp_exponent.
  eapply Qlt_le_trans; [exact H|].
  rewrite <- pow2_Z, <- pow2_add by lia. apply pow2_le. lia.
Qed.

(** The float of a number is a binary64 number. *)
Lemma float_binary64 (x : Q) : binary64 (Py.float x).
Proof.
  destruct (Qeq_dec x 0) as [E|NE].
  { rewrite (float_zero x E). exists 0%Z, 0%Z. split_and!; [lia..|reflexivity]. }
  exists (Py.round_half_even (x / 2 ^ Py.ulp_exponent x)), (Py.ulp_exponent x).
  split_and!; [apply Z.le_max_r| |by apply float_unfold].
  pose proof (ulp_exponent_bound x NE) as Hb.
  pose proof (pow2_pos (Py.ulp_exponent x)) as Hq.
  set (q := Py.ulp_exponent x) in *.
  apply Z.abs_le. split.
  - rewrite <- (round_half_even_Z (- 2 ^ 53)).
    apply round_half_even_mono. apply Qle_shift_div_l; [done|].
    pose proof (Qle_Qabs (- x)) as H. rewrite Qabs_opp in H.
    rewrite inject_Z_opp. lra.
  - rewrite <- (round_half_even_Z (2 ^ 53)).
    apply round_half_even_mono. apply Qle_shift_div_r; [done|].
    pose proof (Qle_Qabs x). lra.
Qed.

(** A binary64 number is its own float. *)
Lemma float_exact (x : Q) : binary64 x → (Py.float x == x)%Q.
Proof.
  intros (m & q' & Hq' & Hm & E).
  destruct (Qeq_dec x 0) as [E0|NE]; [by rewrite (float_zero x E0)|].
  assert (∃ M, (x == inject_Z M * 2 ^ Py.ulp_exponent x)%Q) as [M EM].
  { assert (Hx : (0 < Qabs x)%Q).
    { by apply Qabs_nonzero. }
    assert (Eabs : (Qabs x == inject_Z (Z.abs m) * 2 ^ q')%Q)
      by (by rewrite E, Qabs_scale).
    pose proof (pow2_pos q') as Hpq'.
    destruct (decide (Z.abs m = 2 ^ 53)%Z) as [Em|Nm].
    - assert (He : Py.ilog2 (Qabs x) = (53 + q')%Z).
      { apply ilog2_unique; [done|..]; rewrite Eabs, Em.
        - rewrite <- pow2_Z, <- pow2_add by lia. apply Qle_refl.
        - rewrite <- pow2_Z, <- pow2_add by lia. apply pow2_lt. lia. }
      unfold Py.ulp_exponent. rewrite He, Z.max_l by lia.
      exists (m / 2)%Z. rewrite E.
      assert (m = 2 * (m / 2))%Z as Hm2.
      { apply Z.div_exact; [lia|].
        destruct (Z.abs_eq_or_opp m) as [Hs|Hs]; rewrite Em in Hs.
        - by rewrite <- Hs.
        - assert (m = - 2 ^ 53)%Z as -> by lia. reflexivity. }
      rewrite Hm2 at 1. rewrite inject_Z_mult.
      replace (53 + q' - 52)%Z with (q' + 1)%Z by lia.
      rewrite pow2_succ. change (inject_Z 2) with 2%Q. ring.
    - assert (He : (Py.ilog2 (Qabs x) < 53 + q')%Z).
      { destruct (ilog2_spec _ Hx) as [H1 _]. apply pow2_lt_inv.
        eapply Qle_lt_trans; [exact H1|]. rewrite Eabs.
        rewrite pow2_add, (pow2_Z 53) by lia.
        apply Qmult_lt_compat_r; [done|]. rewrite <- Zlt_Qlt. lia. }
      assert (Hq : (Py.ulp_exponent x ≤ q')%Z)
        by (unfold Py.ulp_exponent; lia).
      exists (m * 2 ^ (q' - Py.ulp_exponent x))%Z.
      rewrite E at 1. rewrite inject_Z_mult, <- Qmult_assoc.
      apply Qmult_comp; [reflexivity|]. symmetry. rewrite Qmult_comm.
      rewrite Qmult_comm. symmetry. by apply pow2_multiple. }
  destruct (float_between x M NE) as [Hle Hge].
  rewrite <- EM in Hle, Hge.
  apply Qle_antisym; [apply Hle|apply Hge]; apply Qle_refl.
Qed.

Lemma float_reduced (x : Q) : Qred (Py.float x) = Py.float x.
Proof.
  unfold Py.float. destruct (Qeq_bool x 0); [reflexivity|].
  apply Qred_complete, Qred_correct.
Qed.

Lemma float_idempotent (x : Q) : Py.float (Py.float x) = Py.float x.
Proof.
  rewrite <- (float_reduced (Py.float x)), <- (float_reduced x).
  apply Qred_complete. rewrite float_reduced.
  apply float_exact, float_binary64.
Qed.

Lemma round_half_even_nearest (x : Q) :
  (Qabs (inject_Z (Py.round_half_even x) - x) <= 1 # 2)%Q.
Proof.
  unfold Py.round_half_even.
  pose proof (Qfloor_le x) as Hlo.
  pose proof (Qlt_floor x) as Hhi.
  set (f := Qfloor x) in *.
  assert (Hf1 : (inject_Z (f + 1) == inject_Z f + 1)%Q)
    by (rewrite inject_Z_plus; reflexivity).
  apply Qabs_Qle_condition.
  destruct (Qcompare_spec (x - inject_Z f) (1 # 2)) as [E|E|E].
  - destruct (Z.even f); [|rewrite Hf1]; split; lra.
  - split; lra.
  - rewrite Hf1. split; lra.
Qed.

(** No integer is nearer to [x] than [round(x)]. *)
Lemma round_half_even_nearest_Z (x : Q) (k : Z) :
  (Qabs (inject_Z (Py.round_half_even x) - x) <= Qabs (inject_Z k - x))%Q.
Proof.
  pose proof (round_half_even_nearest x) as H.
  set (m := Py.round_half_even x) in *.
  destruct (decide (k = m)) as [->|NE]; [apply Qle_refl|].
  eapply Qle_trans; [exact H|].
  apply Qabs_Qle_condition in H as [H1 H2].
  destruct (Z_lt_le_dec k m) as [Hlt|Hge].
  - assert (Hk : (inject_Z k + 1 <= inject_Z m)%Q).
    { change 1%Q with (inject_Z 1). rewrite <- inject_Z_plus, <- Zle_Qle. lia. }
    rewrite <- Qabs_opp. apply Qabs_ge. lra.
  - assert (Hk : (inject_Z m + 1 <= inject_Z k)%Q).
    { change 1%Q with (inject_Z 1). rewrite <- inject_Z_plus, <- Zle_Qle. lia. }
    apply Qabs_ge. lra.
Qed.

(** No multiple of the last place is nearer to [x] than its float. *)
Lemma float_nearest_multiple (x : Q) (k : Z) :
  ¬ (x == 0)%Q →
  (Qabs (Py.float x - x)
   <= Qabs (inject_Z k * 2 ^ Py.ulp_exponent x - x))%Q.
Proof.
  intros NE. rewrite (float_unfold x NE).
  set (q := Py.ulp_exponent x). pose proof (pow2_pos q) as Hq.
  set (m := Py.round_half_even (x / 2 ^ q)).
  assert (E1 : (inject_Z m * 2 ^ q - x
                == (inject_Z m - x / 2 ^ q) * 2 ^ q)%Q) by (field; lra).
  assert (E2 : (inject_Z k * 2 ^ q - x
                == (inject_Z k - x / 2 ^ q) * 2 ^ q)%Q) by (field; lra).
  rewrite E1, E2, !Qabs_Qmult, (Qabs_pos (2 ^ q)) by lra.
  apply Qmult_le_compat_r; [|lra].
  apply round_half_even_nearest_Z.
Qed.

(** The float of [x] is a binary64 number nearest to [x]. *)
Lemma float_nearest (x y : Q) :
  binary64 y → (Qabs (Py.float x - x) <= Qabs (y - x))%Q.
Proof.
  intros (m & q' & Hq' & Hm & E).
  destruct (Qeq_dec x 0) as [E0|NE].
  { rewrite (float_zero x E0).
    assert (E1 : (0 - x == 0)%Q) by (rewrite E0; ring).
    rewrite E1. apply Qabs_nonneg. }
  destruct (Z_le_gt_dec (Py.ulp_exponent x) q') as [Hq|Hq].
  - assert (Ey : (y == inject_Z (m * 2 ^ (q' - Py.ulp_exponent x))
                       * 2 ^ Py.ulp_exponent x)%Q).
    { rewrite E, inject_Z_mult, <- Qmult_assoc.
      apply Qmult_comp; [reflexivity|]. by apply pow2_multiple. }
    rewrite Ey. by apply float_nearest_multiple.
  - pose proof (Qabs_nonzero x NE) as Hx.
    destruct (ilog2_spec _ Hx) as [He _].
    set (e := Py.ilog2 (Qabs x)) in *.
    assert (Eq : Py.ulp_exponent x = (e - 52)%Z)
      by (unfold Py.ulp_exponent in *; fold e in Hq |- *; lia).
    assert (Hy : (Qabs y <= 2 ^ e)%Q).
    { rewrite E, Qabs_scale.
      apply (Qle_trans _ (inject_Z (2 ^ 53) * 2 ^ q')).
      - apply Qmult_le_compat_r; [by rewrite <- Zle_Qle|].
        apply Qlt_le_weak, pow2_pos.
      - rewrite <- pow2_Z, <- pow2_add by lia. apply pow2_le. lia. }
    assert (Ee : (2 ^ e == inject_Z (2 ^ 52) * 2 ^ Py.ulp_exponent x)%Q).
    { rewrite Eq, <- pow2_Z, <- pow2_add by lia.
      by replace (52 + (e - 52))%Z with e by lia. }
    apply Qabs_Qle_condition in Hy as [Hy1 Hy2].
    destruct (Qlt_le_dec 0 x) as [Hpos|Hneg].
    + rewrite Qabs_pos in He by lra.
      eapply Qle_trans; [apply (float_nearest_multiple x (2 ^ 52) NE)|].
      rewrite <- Ee. rewrite <- (Qabs_opp (y - x)).
      rewrite <- (Qabs_opp (2 ^ e - x)), Qabs_pos by lra.
      apply Qabs_ge. lra.
    + rewrite Qabs_neg in He by done.
      eapply Qle_trans; [apply (float_nearest_multiple x (- 2 ^ 52) NE)|].
      rewrite inject_Z_opp.
      assert (E3 : (- inject_Z (2 ^ 52) * 2 ^ Py.ulp_exponent x - x
                    == - 2 ^ e - x)%Q) by (rewrite Ee; ring).
      rewrite E3, Qabs_pos by lra.
      apply Qabs_ge. lra.
Qed.

Example float_tenth_plus_fifth :
  Py.float (Py.float (1 # 10) + Py.float (2 # 10))
  = (1351079888211149 # 4503599627370496)%Q
  ∧ Py.float (3 # 10) = (5404319552844595 # 18014398509481984)%Q.
Proof. split; vm_compute; reflexivity. Qed.

Lemma float_one : Py.float 1 = 1%Q.
Proof. vm_compute. reflexivity. Qed.

Lemma float_unit_interval (x : Q) :
  (0 <= x <= 1)%Q → (0 <= Py.float x <= 1)%Q.
Proof.
  intros [H0 H1]. split; [by apply float_nonneg|].
  eapply Qle_trans; [by apply (float_mono x 1)|].
  rewrite float_one. apply Qle_refl.
Qed.

(** ** [_build_consensus_finding] *)

(** A member without the key [source_agent] makes the method raise:
    the cluster [[{}]] is not empty, and [f['source_agent']] fails on it. *)
Lemma build_consensus_finding_raises :
  [empty_finding] ≠ []
  ∧ _build_consensus_finding default_engine [empty_finding] = None.
Proof. split; [done|]. vm_compute. reflexivity. Qed.

Lemma build_consensus_finding_returns (self : ConsensusEngine)
    (cluster : list Finding) :
  cluster ≠ [] →
  Forall (λ f, is_Some (source_agent f)) cluster →
  ∃ (k : nat) (base : Finding) (agents : list string),
    first_maximum confidence_or_default cluster k base
    ∧ source_agent <$> cluster = Some <$> agents
    ∧ _build_consensus_finding self cluster =
        Some (set_consensus_info
                {| source_agents := agents;
                   agreement_count := length cluster;
                   consensus_confidence :=
                     Py.round2
                       (Py.truediv_float
                          (Py.sum_by confidence_or_default cluster)
                          (length cluster));
                   verified := true |}
                base).
Proof.
  intros Hne Hsrc.
  destruct (max_by_first_maximum confidence_or_default cluster Hne)
    as (k & base & Hmax & Hfirst).
  assert (is_Some (mapM source_agent cluster)) as [agents Hagents].
  { apply mapM_is_Some. eapply Forall_impl; [exact Hsrc|]. by intros f. }
  exists k, base, agents. split_and!; [done | |].
  - apply mapM_Some in Hagents.
    clear -Hagents. induction Hagents as [|f a l l' Hf _ IH]; [done|].
    rewrite !fmap_cons. by rewrite Hf, IH.
  - unfold _build_consensus_finding. rewrite Hmax. simpl.
    by rewrite Hagents.
Qed.




(** ** [_cluster_findings] *)

Lemma filter_ext_in {A} (P Q : A → Prop) `{!∀ x, Decision (P x)}
    `{!∀ x, Decision (Q x)} (l : list A) :
  (∀ x, x ∈ l → P x ↔ Q x) → filter P l = filter Q l.
Proof.
  induction l as [|x l IH]; intros Hext; [done|].
  rewrite !filter_cons.
  rewrite IH by (intros y Hy; apply Hext; by right).
  pose proof (Hext x (list_elem_of_here _ _)) as Hx.
  destruct (decide (P x)), (decide (Q x)); tauto || done.
Qed.

Lemma enumerate_from_fst {A} (n : nat) (l : list A) :
  (enumerate_from n l).*1 = seq n (length l).
Proof.
  revert n. induction l as [|x l IH]; intros n; simpl; [done|].
  by rewrite IH.
Qed.

Lemma enumerate_from_snd {A} (n : nat) (l : list A) :
  (enumerate_from n l).*2 = l.
Proof.
  revert n. induction l as [|x l IH]; intros n; simpl; [done|].
  by rewrite IH.
Qed.

Lemma enumerate_NoDup {A} (l : list A) : NoDup (enumerate l).*1.
Proof. unfold enumerate. rewrite enumerate_from_fst. apply NoDup_seq. Qed.

Lemma unused_empty (entries : list (nat * loc)) : unused ∅ entries = entries.
Proof.
  unfold unused. induction entries as [|p l IH]; [done|].
  rewrite filter_cons_True by set_solver. by rewrite IH.
Qed.

Lemma unused_covered (used : gset nat) (entries : list (nat * loc)) :
  (∀ p, p ∈ entries → p.1 ∈ used) → unused used entries = [].
Proof.
  unfold unused. induction entries as [|p l IH]; intros H; [done|].
  rewrite filter_cons_False by (intros Hp; apply Hp, H; left).
  apply IH. intros q Hq. apply H. by right.
Qed.

(** In an enumeration an entry is determined by its index. *)
Lemma NoDup_fst_inj {A B} (l : list (A * B)) (p q : A * B) :
  NoDup l.*1 → p ∈ l → q ∈ l → p.1 = q.1 → p = q.
Proof.
  intros Hnd Hp Hq Heq.
  apply list_elem_of_lookup in Hp as [k1 H1], Hq as [k2 H2].
  assert (k1 = k2) as ->; [|congruence].
  eapply NoDup_lookup; [exact Hnd | |];
    rewrite list_lookup_fmap; [by rewrite H1 | by rewrite H2, Heq].
Qed.

Section Clustering.

Context (self : ConsensusEngine) (h : gmap loc Finding).

(** The inner loop appends the unused entries similar to the seed, in
    order, and marks them used. The test [i == j] is subsumed: the seed's
    index is already in [used_indices] when the loop starts. *)
Lemma cluster_inner_picked (i : nat) (finding1 : loc)
    (js : list (nat * loc)) (cluster : list loc) (used : gset nat) :
  NoDup js.*1 → i ∈ used →
  cluster_inner self h i finding1 js cluster used =
    (cluster ++ (picked self h finding1 used js).*2,
     used ∪ list_to_set (picked self h finding1 used js).*1).
Proof.
  revert cluster used.
  induction js as [|[j finding2] js IH]; intros cluster used Hnd Hi.
  { simpl. rewrite app_nil_r. f_equal. set_solver. }
  apply NoDup_cons in Hnd as [Hj Hnd]. simpl in Hj.
  assert (Hfresh : ∀ u, picked self h finding1 ({[j]} ∪ u) js
                        = picked self h finding1 u js).
  { intros u. apply filter_ext_in. intros p Hp.
    assert (p.1 ≠ j) by (intros <-; apply Hj; by apply list_elem_of_fmap_2).
    set_solver. }
  simpl. unfold picked at 1 2. rewrite filter_cons. fold (picked self h finding1 used js).
  destruct (decide (j ∈ used)) as [Hin|Hin].
  - rewrite bool_decide_eq_true_2 by done. simpl.
    rewrite decide_False by (simpl; tauto). by apply IH.
  - rewrite bool_decide_eq_false_2 by done.
    rewrite bool_decide_eq_false_2 by (intros ->; done). simpl.
    fold (similar_in self h finding1 finding2).
    destruct (similar_in self h finding1 finding2) eqn:Hsim.
    + rewrite decide_True by done.
      rewrite IH by (done || set_solver). rewrite Hfresh.
      rewrite !fmap_cons; simpl. rewrite <- app_assoc. simpl.
      f_equal. set_solver.
    + rewrite decide_False by (simpl; intros [_ ?]; congruence).
      by apply IH.
Qed.

(** Index membership among the picked entries, for an entry of the same
    enumeration. *)
Lemma picked_index (finding1 : loc) (used : gset nat)
    (js : list (nat * loc)) (p : nat * loc) :
  NoDup js.*1 → p ∈ js →
  p.1 ∈ (list_to_set (picked self h finding1 used js).*1 : gset nat)
  ↔ (p.1 ∉ used) ∧ similar_in self h finding1 p.2 = true.
Proof.
  intros Hnd Hp. rewrite elem_of_list_to_set, list_elem_of_fmap.
  split.
  - intros (q & Hq1 & Hq). apply list_elem_of_filter in Hq as [HP Hq].
    by rewrite (NoDup_fst_inj js p q).
  - intros HP. exists p. split; [done|]. by apply list_elem_of_filter.
Qed.

(** The unused entries split into the picked ones and those left unused. *)
Lemma unused_picked (finding1 : loc) (used : gset nat)
    (js : list (nat * loc)) :
  NoDup js.*1 →
  unused used js ≡ₚ
    picked self h finding1 used js
    ++ unused (used ∪ list_to_set (picked self h finding1 used js).*1) js.
Proof.
  intros Hnd.
  assert (unused (used ∪ list_to_set (picked self h finding1 used js).*1) js
          = filter (λ p, ¬ ((p.1 ∉ used)
                            ∧ similar_in self h finding1 p.2 = true))
                   (unused used js)) as ->.
  { unfold unused. rewrite list_filter_filter.
    apply filter_ext_in. intros p Hp.
    pose proof (picked_index finding1 used js p Hnd Hp). set_solver. }
  assert (picked self h finding1 used js
          = filter (λ p, (p.1 ∉ used)
                         ∧ similar_in self h finding1 p.2 = true)
                   (unused used js)) as ->.
  { unfold unused, picked. rewrite list_filter_filter.
    apply filter_ext_in. intros p _. tauto. }
  symmetry. apply filter_app_complement.
Qed.

End Clustering.

(** Marking one unused entry as used removes exactly that entry. *)
Lemma unused_insert (entries : list (nat * loc)) (i : nat) (finding1 : loc)
    (used : gset nat) :
  NoDup entries.*1 → (i, finding1) ∈ entries → i ∉ used →
  unused used entries ≡ₚ (i, finding1) :: unused ({[i]} ∪ used) entries.
Proof.
  unfold unused.
  induction entries as [|[j f] l IH]; intros Hnd Hin Hi.
  { by apply elem_of_nil in Hin. }
  apply NoDup_cons in Hnd as [Hj Hnd]. simpl in Hj.
  apply elem_of_cons in Hin as [Heq|Hin].
  - injection Heq as <- <-.
    rewrite filter_cons_True by done.
    rewrite filter_cons_False by (simpl; set_solver).
    apply Permutation_cons; [done|].
    erewrite filter_ext_in; [done|]. intros p Hp.
    assert (p.1 ≠ i) by (intros <-; apply Hj; by apply list_elem_of_fmap_2).
    set_solver.
  - assert (j ≠ i).
    { intros ->. apply Hj.
      by apply (list_elem_of_fmap_2 fst) in Hin. }
    destruct (decide (j ∈ used)) as [Hu|Hu].
    + rewrite !filter_cons_False by (simpl; set_solver). by apply IH.
    + rewrite !filter_cons_True by (simpl; set_solver).
      rewrite IH by done. apply Permutation_swap.
Qed.

Lemma separated_snoc (clusters : list (list loc)) (c : list loc) :
  separated clusters →
  (∀ l c0, c0 ∈ clusters → l ∈ c0 → l ∉ c) →
  separated (clusters ++ [c]).
Proof.
  induction clusters as [|c1 cs IH]; intros Hsep Hnew; simpl.
  { split; [|done]. intros l c' _ Hc'. by apply elem_of_nil in Hc'. }
  destruct Hsep as [H1 Hsep]. split.
  - intros l c' Hl Hc'. apply elem_of_app in Hc' as [Hc'|Hc'].
    + by eapply H1.
    + apply list_elem_of_singleton in Hc' as ->.
      eapply Hnew; [|exact Hl]. left.
  - apply IH; [done|]. intros l c0 Hc0. apply Hnew. by right.
Qed.

Section ClusterLoop.

Context (self : ConsensusEngine) (h : gmap loc Finding).
Context (all : list (nat * loc)) (Hall : NoDup all.*1).

Lemma seeded_mono (used used' : gset nat) (c : list loc) :
  used ⊆ used' → seeded self h all used c → seeded self h all used' c.
Proof.
  intros Hsub (s & Hin & Hout). exists s. split; [done|].
  intros p Hp Hu. apply Hout; [done|]. set_solver.
Qed.

(** One iteration of the outer loop on an unused index keeps the
    invariant. *)
Lemma cluster_inv_step (i : nat) (finding1 : loc)
    (clusters : list (list loc)) (used : gset nat) :
  (i, finding1) ∈ all → i ∉ used →
  cluster_inv self h all clusters used →
  let pk := picked self h finding1 ({[i]} ∪ used) all in
  cluster_inv self h all (clusters ++ [[finding1] ++ pk.*2])
    (({[i]} ∪ used) ∪ list_to_set pk.*1).
Proof.
  intros Hin Hi (Hperm & Hne & Hseed & Hsep) pk.
  assert (Hpk : ∀ p, p ∈ pk →
            p ∈ all ∧ (p.1 ∉ used) ∧ similar_in self h finding1 p.2 = true).
  { intros p Hp. apply list_elem_of_filter in Hp as [[Hu Hs] Hp].
    split_and!; [done| set_solver |done]. }
  assert (Hold : ∀ l c0, c0 ∈ clusters → l ∈ c0 →
            ∀ p, p ∈ all → p.1 ∉ used → p.2 ≠ l).
  { intros l c0 Hc0 Hl p Hp Hu <-.
    rewrite Forall_forall in Hseed.
    destruct (Hseed c0 Hc0) as (s & Hs1 & Hs2).
    specialize (Hs1 _ Hl). specialize (Hs2 _ Hp Hu). congruence. }
  split_and!.
  - rewrite concat_app. simpl. rewrite app_nil_r.
    rewrite <- Hperm, <- !app_assoc. apply Permutation_app_head.
    rewrite (unused_insert all i finding1 used Hall Hin Hi).
    rewrite (unused_picked self h finding1 ({[i]} ∪ used) all Hall).
    fold pk. by rewrite fmap_cons, fmap_app.
  - apply Forall_app. split; [done|]. by repeat constructor.
  - apply Forall_app. split.
    + eapply Forall_impl; [exact Hseed|]. intros c.
      apply seeded_mono. set_solver.
    + constructor; [|done]. exists finding1. split.
      * intros l Hl. apply elem_of_cons in Hl as [->|Hl].
        -- apply are_similar_refl.
        -- apply list_elem_of_fmap in Hl as (p & -> & Hp).
           by apply Hpk.
      * intros p Hp Hu.
        pose proof (picked_index self h finding1 ({[i]} ∪ used) all p
                      Hall Hp) as Hidx.
        fold pk in Hidx.
        destruct (similar_in self h finding1 p.2) eqn:Hs; [|done].
        exfalso. apply Hu. apply elem_of_union_r, Hidx. split; [|done].
        set_solver.
  - apply separated_snoc; [done|].
    intros l c0 Hc0 Hl Hc. apply elem_of_cons in Hc as [->|Hc].
    + by apply (Hold _ _ Hc0 Hl (i, finding1)).
    + apply list_elem_of_fmap in Hc as (p & -> & Hp).
      destruct (Hpk p Hp) as (Hp1 & Hp2 & _).
      by apply (Hold _ _ Hc0 Hl p).
Qed.

(** The outer loop keeps the invariant and uses every index it visits. *)
Lemma cluster_outer_inv (rest : list (nat * loc))
    (clusters : list (list loc)) (used : gset nat) :
  (∀ p, p ∈ rest → p ∈ all) →
  cluster_inv self h all clusters used →
  ∃ used',
    cluster_inv self h all (cluster_outer self h all rest clusters used) used'
    ∧ used ⊆ used'
    ∧ (∀ p, p ∈ rest → p.1 ∈ used').
Proof.
  revert clusters used.
  induction rest as [|[i finding1] rest IH]; intros clusters used Hsub Hinv.
  { exists used. split_and!; [done..|]. intros p Hp. by apply elem_of_nil in Hp. }
  assert (Hsub' : ∀ p, p ∈ rest → p ∈ all) by (intros p Hp; apply Hsub; by right).
  simpl. destruct (decide (i ∈ used)) as [Hi|Hi].
  - rewrite bool_decide_eq_true_2 by done.
    destruct (IH clusters used Hsub' Hinv) as (used' & H1 & H2 & H3).
    exists used'. split_and!; [done..|].
    intros p Hp. apply elem_of_cons in Hp as [->|Hp]; [set_solver|by apply H3].
  - rewrite bool_decide_eq_false_2 by done.
    rewrite cluster_inner_picked by (done || set_solver).
    pose proof (cluster_inv_step i finding1 clusters used
                  (Hsub _ (list_elem_of_here _ _)) Hi Hinv) as Hstep.
    cbn zeta in Hstep.
    destruct (IH _ _ Hsub' Hstep) as (used' & H1 & H2 & H3).
    exists used'. split_and!; [done|set_solver|].
    intros p Hp. apply elem_of_cons in Hp as [->|Hp]; [set_solver|by apply H3].
Qed.

End ClusterLoop.

(** The result of [_cluster_findings]: a rearrangement of the input into
    non-empty clusters, no object in two of them. *)
Lemma cluster_findings_inv (self : ConsensusEngine) (h : gmap loc Finding)
    (findings : list loc) :
  concat (_cluster_findings self h findings) ≡ₚ findings
  ∧ Forall (λ c, c ≠ []) (_cluster_findings self h findings)
  ∧ separated (_cluster_findings self h findings).
Proof.
  unfold _cluster_findings.
  destruct (cluster_outer_inv self h (enumerate findings)
              (enumerate_NoDup findings) (enumerate findings) [] ∅)
    as (used' & (Hperm & Hne & _ & Hsep) & _ & Hcov); [done| |].
  { split_and!; [|done..]. simpl. by rewrite unused_empty. }
  split_and!; [|done..].
  rewrite (unused_covered used') in Hperm by done.
  rewrite app_nil_r in Hperm. rewrite Hperm.
  unfold enumerate. by rewrite enumerate_from_snd.
Qed.

(** C2: the clusters returned by [_cluster_findings] partition the input:
    joined together they hold every input entry exactly once (nothing
    dropped, nothing duplicated), and no finding is in two clusters. *)
Theorem cluster_findings_partition (self : ConsensusEngine)
    (h : gmap loc Finding) (findings : list loc) :
  concat (_cluster_findings self h findings) ≡ₚ findings
  ∧ separated (_cluster_findings self h findings).
Proof.
  destruct (cluster_findings_inv self h findings) as (H1 & _ & H2).
  by split.
Qed.

(** ** The store *)

Lemma tags_source_refl (h : gmap loc Finding) : tags_source [] h h.
Proof. intros l. split_and!; try done. intros Hl. by apply elem_of_nil in Hl. Qed.

Lemma tags_source_trans (t1 t2 : list loc) (h h1 h2 : gmap loc Finding) :
  tags_source t1 h h1 → tags_source t2 h1 h2 → tags_source (t1 ++ t2) h h2.
Proof.
  intros H1 H2 l.
  destruct (H1 l) as (Ha & Hb & Hc & Hd), (H2 l) as (Ha' & Hb' & Hc' & Hd').
  split_and!; [congruence | congruence | |].
  - intros Hl. destruct (decide (l ∈ t2)) as [Hin|Hout]; [by apply Hc'|].
    rewrite Hd' by done. apply Hc. set_solver.
  - intros Hl. rewrite Hd', Hd; set_solver.
Qed.

Lemma tags_rejection_refl (h : gmap loc Finding) : tags_rejection [] h h.
Proof. by intros l. Qed.

Lemma tags_rejection_trans (t1 t2 : list loc) (h h1 h2 : gmap loc Finding) :
  tags_rejection t1 h h1 → tags_rejection t2 h1 h2 →
  tags_rejection (t1 ++ t2) h h2.
Proof.
  intros H1 H2 l.
  destruct (H1 l) as (Ha & Hb & Hd), (H2 l) as (Ha' & Hb' & Hd').
  split_and!; [congruence | congruence |].
  intros Hl. rewrite Hd', Hd; set_solver.
Qed.

Lemma tags_source_insert (a : string) (x : loc) (h : gmap loc Finding) :
  tags_source [x] h (<[x := set_source_agent a (h !!! x)]> h).
Proof.
  intros l. destruct (decide (x = l)) as [->|Hne].
  - rewrite lookup_total_insert_eq. split_and!; try done. set_solver.
  - rewrite lookup_total_insert_ne by done. split_and!; try done. set_solver.
Qed.

Lemma tags_rejection_insert (r : string) (x : loc) (h : gmap loc Finding) :
  tags_rejection [x] h (<[x := set_rejection_reason r (h !!! x)]> h).
Proof.
  intros l. destruct (decide (x = l)) as [->|Hne].
  - rewrite lookup_total_insert_eq. split_and!; try done. set_solver.
  - rewrite lookup_total_insert_ne by done. by split_and!.
Qed.

Lemma collect_findings_spec (a : string) (fs all : list loc)
    (h : gmap loc Finding) :
  ∃ h', collect_findings a fs all h = (all ++ fs, h') ∧ tags_source fs h h'.
Proof.
  revert all h. induction fs as [|x fs IH]; intros all h; simpl.
  { exists h. rewrite app_nil_r. split; [done|apply tags_source_refl]. }
  destruct (IH (all ++ [x]) (<[x := set_source_agent a (h !!! x)]> h))
    as (h' & -> & Htags).
  exists h'. split; [by rewrite <- app_assoc|].
  apply (tags_source_trans [x] fs _ _ _ (tags_source_insert a x h) Htags).
Qed.

Lemma collect_results_spec (agent_results : list AgentResult)
    (all : list loc) (h : gmap loc Finding) :
  ∃ h', collect_results agent_results all h
        = (all ++ input_findings agent_results, h')
        ∧ tags_source (input_findings agent_results) h h'.
Proof.
  revert all h. induction agent_results as [|r rs IH]; intros all h; simpl.
  { exists h. rewrite app_nil_r. split; [done|apply tags_source_refl]. }
  destruct (collect_findings_spec (default "unknown" (agent r))
              (default [] (findings r)) all h) as (h1 & -> & H1).
  destruct (IH (all ++ default [] (findings r)) h1) as (h' & -> & H2).
  exists h'. split.
  - unfold input_findings. rewrite fmap_cons. simpl. by rewrite <- app_assoc.
  - unfold input_findings. rewrite fmap_cons. simpl.
    by eapply tags_source_trans.
Qed.

Lemma reject_cluster_spec (n : nat) (c rejected : list loc)
    (h : gmap loc Finding) :
  ∃ h', reject_cluster n c rejected h = (rejected ++ c, h')
        ∧ tags_rejection c h h'
        ∧ (∀ l, l ∈ c →
             rejection_reason (h' !!! l) = Some (rejection_text n)).
Proof.
  revert rejected h. induction c as [|x c IH]; intros rejected h; simpl.
  { exists h. rewrite app_nil_r. split_and!; [done|apply tags_rejection_refl|].
    intros l Hl. by apply elem_of_nil in Hl. }
  destruct (IH (rejected ++ [x])
              (<[x := set_rejection_reason (rejection_text n) (h !!! x)]> h))
    as (h' & -> & Htags & Hreason).
  exists h'. split_and!; [by rewrite <- app_assoc| |].
  - apply (tags_rejection_trans [x] c _ _ _
             (tags_rejection_insert _ x h) Htags).
  - intros l Hl. destruct (decide (l ∈ c)) as [Hin|Hout]; [by apply Hreason|].
    apply elem_of_cons in Hl as [->|Hl]; [|done].
    destruct (Htags x) as (_ & _ & Hframe). rewrite Hframe by done.
    by rewrite lookup_total_insert_eq.
Qed.

(** ** [build_consensus] *)

Lemma Forall2_impl_in {A B} (P Q : A → B → Prop) (l : list A) (k : list B) :
  Forall2 P l k → (∀ x y, x ∈ l → P x y → Q x y) → Forall2 Q l k.
Proof.
  induction 1 as [|x y l k HP _ IH]; intros Himp; constructor.
  - apply Himp; [left|done].
  - apply IH. intros x' y' Hx'. apply Himp. by right.
Qed.

Lemma elem_of_concat {A} (ls : list (list A)) (x : A) :
  x ∈ concat ls ↔ ∃ l, l ∈ ls ∧ x ∈ l.
Proof.
  induction ls as [|l ls IH]; simpl.
  - split; [intros H; by apply elem_of_nil in H|].
    intros (l & Hl & _). by apply elem_of_nil in Hl.
  - rewrite elem_of_app, IH. split.
    + intros [Hx|(l' & Hl' & Hx)]; [exists l; split; [left|done]|].
      exists l'. split; [by right|done].
    + intros (l' & Hl' & Hx). apply elem_of_cons in Hl' as [->|Hl'];
        [by left|right; eauto].
Qed.

Lemma elem_of_concat_filter (P : list loc → Prop) `{!∀ c, Decision (P c)}
    (cs : list (list loc)) (l : loc) :
  l ∈ concat (filter P cs) → ∃ c, c ∈ cs ∧ P c ∧ l ∈ c.
Proof.
  intros Hl. apply elem_of_concat in Hl as (c & Hc & Hl).
  apply list_elem_of_filter in Hc as [HP Hc]. eauto.
Qed.

(** The decision loop: one consensus finding per cluster that meets the
    threshold, built from the members as they are when the loop starts; the
    members of the other clusters are rejected, in order, each with the
    size of its cluster in the reason. *)
Lemma decide_clusters_spec (self : ConsensusEngine) (cs : list (list loc))
    (consensus : list Finding) (rejected : list loc) (h : gmap loc Finding) :
  Forall (λ c, c ≠ []) cs → separated cs →
  (∀ c l, c ∈ cs → l ∈ c → is_Some (source_agent (h !!! l))) →
  ∃ new h2,
    decide_clusters self cs consensus rejected h =
      Some (consensus ++ new,
            rejected ++ concat (filter (λ c, ¬ agreed self c) cs), h2)
    ∧ Forall2 (λ c f, _build_consensus_finding self ((h !!!.) <$> c) = Some f)
        (filter (agreed self) cs) new
    ∧ tags_rejection (concat (filter (λ c, ¬ agreed self c) cs)) h h2
    ∧ (∀ c l, c ∈ cs → ¬ agreed self c → l ∈ c →
         rejection_reason (h2 !!! l) = Some (rejection_text (length c))).
Proof.
  revert consensus rejected h.
  induction cs as [|c cs IH]; intros consensus rejected h Hne Hsep Hsrc.
  { exists [], h. simpl. rewrite !app_nil_r.
    split_and!; [done|constructor|apply tags_rejection_refl|].
    intros c l Hc. by apply elem_of_nil in Hc. }
  apply Forall_cons in Hne as [Hc Hne]. destruct Hsep as [Hdisj Hsep].
  assert (Hsrc' : ∀ c' l, c' ∈ cs → l ∈ c' → is_Some (source_agent (h !!! l)))
    by (intros c' l Hc'; apply Hsrc; by right).
  simpl. destruct (decide (agreed self c)) as [Hag|Hag].
  - rewrite (proj2 (Z.leb_le _ _) Hag).
    destruct (build_consensus_finding_returns self ((h !!!.) <$> c))
      as (k & base & agents & _ & _ & Hf).
    { by destruct c. }
    { apply Forall_fmap, Forall_forall. intros l Hl. simpl.
      apply (Hsrc c); [left|done]. }
    set (f := set_consensus_info _ _) in Hf. rewrite Hf. simpl.
    destruct (IH (consensus ++ [f]) rejected h Hne Hsep Hsrc')
      as (new & h2 & -> & Hnew & Htags & Hreason).
    exists (f :: new), h2.
    rewrite (filter_cons_True (agreed self)) by done.
    rewrite (filter_cons_False (λ c, ¬ agreed self c))
      by (intros Hn; by apply Hn).
    split_and!; [by rewrite <- app_assoc| by constructor |done|].
    intros c' l Hc' Hnag Hl. apply elem_of_cons in Hc' as [->|Hc']; [done|].
    by apply Hreason.
  - rewrite (proj2 (Z.leb_nle _ _) Hag).
    destruct (reject_cluster_spec (length c) c rejected h)
      as (h1 & -> & Htags1 & Hreason1).
    destruct (IH consensus (rejected ++ c) h1 Hne Hsep)
      as (new & h2 & -> & Hnew & Htags & Hreason).
    { intros c' l Hc' Hl. destruct (Htags1 l) as (_ & -> & _). by eapply Hsrc'. }
    exists new, h2.
    rewrite (filter_cons_False (agreed self)) by done.
    rewrite (filter_cons_True (λ c, ¬ agreed self c)) by done. simpl.
    split_and!; [by rewrite <- app_assoc| | |].
    + eapply Forall2_impl_in; [exact Hnew|]. intros c' f Hc' <-.
      apply list_elem_of_filter in Hc' as [_ Hc'].
      f_equal. apply list_fmap_ext. intros i l Hl. simpl.
      apply list_elem_of_lookup_2 in Hl.
      destruct (Htags1 l) as (_ & _ & Hframe). rewrite Hframe; [done|].
      intros Hlc. by apply (Hdisj l c').
    + by eapply tags_rejection_trans.
    + intros c' l Hc' Hnag Hl.
      destruct (decide (l ∈ c)) as [Hlc|Hlc].
      * destruct (Htags l) as (_ & _ & Hframe). rewrite Hframe.
        2:{ intros Hin. apply elem_of_concat_filter in Hin as (c2 & Hc2 & _ & Hl2).
          by apply (Hdisj l c2). }
        apply elem_of_cons in Hc' as [->|Hc']; [by apply Hreason1|].
        exfalso. by apply (Hdisj l c').
      * apply elem_of_cons in Hc' as [->|Hc']; [done|]. by apply Hreason.
Qed.

(** The engine object is read only for [min_agreement]. *)
Lemma cluster_inner_self (e1 e2 : ConsensusEngine) (h : gmap loc Finding)
    (i : nat) (finding1 : loc) (js : list (nat * loc))
    (cluster : list loc) (used : gset nat) :
  cluster_inner e1 h i finding1 js cluster used
  = cluster_inner e2 h i finding1 js cluster used.
Proof.
  revert cluster used. induction js as [|[j f2] js IH]; intros cluster used.
  { done. }
  simpl. rewrite !IH. done.
Qed.

Lemma cluster_outer_self (e1 e2 : ConsensusEngine) (h : gmap loc Finding)
    (all rest : list (nat * loc)) (clusters : list (list loc))
    (used : gset nat) :
  cluster_outer e1 h all rest clusters used
  = cluster_outer e2 h all rest clusters used.
Proof.
  revert clusters used. induction rest as [|[i f1] rest IH];
    intros clusters used; [done|].
  simpl. rewrite (cluster_inner_self e1 e2).
  destruct (cluster_inner e2 h i f1 all [f1] ({[i]} ∪ used)) as [c u].
  by rewrite !IH.
Qed.

Lemma cluster_findings_self (e1 e2 : ConsensusEngine) (h : gmap loc Finding)
    (findings : list loc) :
  _cluster_findings e1 h findings = _cluster_findings e2 h findings.
Proof. apply cluster_outer_self. Qed.

Lemma decide_clusters_self (e1 e2 : ConsensusEngine) (cs : list (list loc))
    (consensus : list Finding) (rejected : list loc) (h : gmap loc Finding) :
  min_agreement e1 = min_agreement e2 →
  decide_clusters e1 cs consensus rejected h
  = decide_clusters e2 cs consensus rejected h.
Proof.
  intros Hmin. revert consensus rejected h.
  induction cs as [|c cs IH]; intros consensus rejected h; [done|].
  simpl. rewrite Hmin.
  destruct (min_agreement e2 <=? Z.of_nat (length c))%Z.
  - change (_build_consensus_finding e1) with (_build_consensus_finding e2).
    destruct (_build_consensus_finding e2 ((h !!!.) <$> c)); simpl; [|done].
    apply IH.
  - destruct (reject_cluster (length c) c rejected h). apply IH.
Qed.

Lemma build_consensus_self (e1 e2 : ConsensusEngine)
    (agent_results : list AgentResult) (h : gmap loc Finding) :
  min_agreement e1 = min_agreement e2 →
  build_consensus e1 agent_results h = build_consensus e2 agent_results h.
Proof.
  intros Hmin. unfold build_consensus.
  destruct (collect_results agent_results [] h) as [all h1].
  rewrite (cluster_findings_self e1 e2), (decide_clusters_self e1 e2) by done.
  by rewrite Hmin.
Qed.

(** C9: the constructor parameter [similarity_threshold] has no effect:
    two engines with the same [min_agreement] and different thresholds give
    the same result of [build_consensus] on every input, and leave the same
    store. *)
Theorem similarity_threshold_has_no_effect (m : Z) (t1 t2 : Q)
    (agent_results : list AgentResult) (h : gmap loc Finding) :
  build_consensus (mkEngine m t1) agent_results h
  = build_consensus (mkEngine m t2) agent_results h.
Proof. by apply build_consensus_self. Qed.

(** What a run of [build_consensus] returns and leaves in the store. *)
Lemma build_consensus_spec (self : ConsensusEngine)
    (agent_results : list AgentResult) (h : gmap loc Finding) :
  ∃ h1 r h2,
    collect_results agent_results [] h = (input_findings agent_results, h1)
    ∧ tags_source (input_findings agent_results) h h1
    ∧ build_consensus self agent_results h = Some (r, h2)
    ∧ Forall2
        (λ c f, _build_consensus_finding self ((h1 !!!.) <$> c) = Some f)
        (filter (agreed self)
           (_cluster_findings self h1 (input_findings agent_results)))
        (consensus_findings r)
    ∧ rejected_findings r =
        concat (filter (λ c, ¬ agreed self c)
                  (_cluster_findings self h1 (input_findings agent_results)))
    ∧ tags_rejection (rejected_findings r) h1 h2
    ∧ (∀ c l,
         c ∈ _cluster_findings self h1 (input_findings agent_results) →
         ¬ agreed self c → l ∈ c →
         rejection_reason (h2 !!! l) = Some (rejection_text (length c)))
    ∧ total_agents r = length agent_results
    ∧ agreement_threshold r = min_agreement self
    ∧ statistics r =
        {| total_findings := length (input_findings agent_results);
           consensus_count := length (consensus_findings r);
           rejected_count := length (rejected_findings r) |}.
Proof.
  destruct (collect_results_spec agent_results [] h) as (h1 & Hcoll & Hsrc).
  simpl in Hcoll.
  destruct (cluster_findings_inv self h1 (input_findings agent_results))
    as (Hperm & Hne & Hsep).
  destruct (decide_clusters_spec self
              (_cluster_findings self h1 (input_findings agent_results))
              [] [] h1 Hne Hsep)
    as (new & h2 & Hdec & Hnew & Htags & Hreason).
  { intros c l Hc Hl. apply (Hsrc l).
    rewrite <- Hperm. apply elem_of_concat. eauto. }
  simpl in Hdec.
  eexists h1, _, h2. split_and!; [done|done| |..].
  - unfold build_consensus. rewrite Hcoll, Hdec. simpl. reflexivity.
  - done.
  - done.
  - done.
  - done.
  - done.
  - done.
  - done.
Qed.

(** ** Counting *)

Lemma build_consensus_finding_count (self : ConsensusEngine)
    (cluster : list Finding) (f : Finding) :
  _build_consensus_finding self cluster = Some f →
  from_option agreement_count 0 (consensus_info f) = length cluster.
Proof.
  unfold _build_consensus_finding.
  destruct (Py.max_by confidence_or_default cluster); [|done]. simpl.
  destruct (mapM source_agent cluster); [|done]. simpl.
  by intros [= <-].
Qed.

Lemma agreement_total_clusters (self : ConsensusEngine)
    (h : gmap loc Finding) (cs : list (list loc)) (fs : list Finding) :
  Forall2 (λ c f, _build_consensus_finding self ((h !!!.) <$> c) = Some f)
    cs fs →
  agreement_total fs = length (concat cs).
Proof.
  induction 1 as [|c f cs fs Hf _ IH]; [done|].
  unfold agreement_total in *. simpl.
  rewrite (build_consensus_finding_count _ _ _ Hf), length_fmap, length_app.
  by rewrite IH.
Qed.

Lemma concat_filter_split {A} (P : list A → Prop) `{!∀ c, Decision (P c)}
    (cs : list (list A)) :
  length (concat (filter P cs)) + length (concat (filter (λ c, ¬ P c) cs))
  = length (concat cs).
Proof.
  induction cs as [|c cs IH]; [done|].
  rewrite !filter_cons. simpl.
  destruct (decide (P c)), (decide (¬ P c)); try tauto;
    simpl; rewrite !length_app; lia.
Qed.

Lemma length_le_concat {A} (cs : list (list A)) :
  Forall (λ c, c ≠ []) cs → length cs ≤ length (concat cs).
Proof.
  induction 1 as [|c cs Hc _ IH]; simpl; [done|].
  rewrite length_app. destruct c; [done|]. simpl. lia.
Qed.

Lemma filter_length_mono {A} (P Q : A → Prop) `{!∀ x, Decision (P x)}
    `{!∀ x, Decision (Q x)} (l : list A) :
  (∀ x, P x → Q x) → length (filter P l) ≤ length (filter Q l).
Proof.
  intros Himp. induction l as [|x l IH]; [done|].
  rewrite !filter_cons.
  destruct (decide (P x)) as [HP|HP], (decide (Q x)) as [HQ|HQ]; simpl;
    try lia.
  exfalso. by apply HQ, Himp.
Qed.

Lemma concat_filter_length_mono {A} (P Q : list A → Prop)
    `{!∀ x, Decision (P x)} `{!∀ x, Decision (Q x)} (cs : list (list A)) :
  (∀ c, P c → Q c) →
  length (concat (filter P cs)) ≤ length (concat (filter Q cs)).
Proof.
  intros Himp. induction cs as [|c cs IH]; [done|].
  rewrite !filter_cons.
  destruct (decide (P c)) as [HP|HP], (decide (Q c)) as [HQ|HQ]; simpl;
    rewrite ?length_app; try lia.
  exfalso. by apply HQ, Himp.
Qed.

Lemma separated_elem (cs : list (list loc)) (c1 c2 : list loc) (l : loc) :
  separated cs → c1 ∈ cs → c2 ∈ cs → l ∈ c1 → l ∈ c2 → c1 = c2.
Proof.
  induction cs as [|c cs IH]; intros Hsep H1 H2 Hl1 Hl2.
  { by apply elem_of_nil in H1. }
  destruct Hsep as [Hdisj Hsep].
  apply elem_of_cons in H1 as [->|H1], H2 as [->|H2]; [done| | |by apply IH].
  - exfalso. by apply (Hdisj l c2).
  - exfalso. by apply (Hdisj l c1).
Qed.

(** The scenario of the two findings in [app.py]: one consensus finding and
    no rejected finding for two input findings. *)
Lemma accounting_identity_fails :
  ∃ r h2,
    build_consensus default_engine two_reviewers sample_store = Some (r, h2)
    ∧ consensus_count (statistics r) = 1
    ∧ rejected_count (statistics r) = 0
    ∧ total_findings (statistics r) = 2.
Proof. eexists _, _. split; [vm_compute; reflexivity|]. by split_and!. Qed.

(** C1, amended: every run of [build_consensus] returns, and every input
    finding is accounted for once: the [agreement_count]s of the consensus
    findings and [rejected_count] add up to [total_findings]. A consensus
    finding stands for its whole cluster, so [consensus_count +
    rejected_count] is at most [total_findings]. *)
Theorem build_consensus_accounting (self : ConsensusEngine)
    (agent_results : list AgentResult) (h : gmap loc Finding) :
  ∃ r h2,
    build_consensus self agent_results h = Some (r, h2)
    ∧ agreement_total (consensus_findings r) + rejected_count (statistics r)
      = total_findings (statistics r)
    ∧ consensus_count (statistics r) + rejected_count (statistics r)
      ≤ total_findings (statistics r).
Proof.
  destruct (build_consensus_spec self agent_results h)
    as (h1 & r & h2 & _ & _ & Hrun & Hcons & Hrej & _ & _ & _ & _ & Hstat).
  destruct (cluster_findings_inv self h1 (input_findings agent_results))
    as (Hperm & Hne & _).
  exists r, h2. split; [done|].
  rewrite Hstat. simpl.
  rewrite (agreement_total_clusters _ _ _ _ Hcons).
  rewrite <- (Forall2_length _ _ _ Hcons), Hrej.
  pose proof (concat_filter_split (agreed self)
                (_cluster_findings self h1 (input_findings agent_results)))
    as Hsplit.
  rewrite (Permutation_length Hperm) in Hsplit.
  split; [done|].
  assert (Hle : length (filter (agreed self)
                   (_cluster_findings self h1 (input_findings agent_results)))
                ≤ length (concat (filter (agreed self)
                   (_cluster_findings self h1 (input_findings agent_results))))).
  { apply length_le_concat, Forall_forall. intros c Hc.
    apply list_elem_of_filter in Hc as [_ Hc].
    rewrite Forall_forall in Hne. by apply Hne. }
  lia.
Qed.

(** C5: for a fixed input, raising [min_agreement] never increases
    [consensus_count] and never decreases [rejected_count]. *)
Theorem min_agreement_monotone (e1 e2 : ConsensusEngine)
    (agent_results : list AgentResult) (h : gmap loc Finding) :
  (min_agreement e1 <= min_agreement e2)%Z →
  ∃ r1 h1 r2 h2,
    build_consensus e1 agent_results h = Some (r1, h1)
    ∧ build_consensus e2 agent_results h = Some (r2, h2)
    ∧ consensus_count (statistics r2) ≤ consensus_count (statistics r1)
    ∧ rejected_count (statistics r1) ≤ rejected_count (statistics r2).
Proof.
  intros Hle.
  destruct (build_consensus_spec e1 agent_results h)
    as (s1 & r1 & h1 & Hc1 & _ & Hrun1 & Hcons1 & Hrej1 & _ & _ & _ & _ & Hst1).
  destruct (build_consensus_spec e2 agent_results h)
    as (s2 & r2 & h2 & Hc2 & _ & Hrun2 & Hcons2 & Hrej2 & _ & _ & _ & _ & Hst2).
  assert (s2 = s1) as -> by congruence.
  rewrite (cluster_findings_self e2 e1) in Hcons2, Hrej2.
  exists r1, h1, r2, h2. split_and!; [done|done| |].
  - rewrite Hst1, Hst2. simpl.
    rewrite <- (Forall2_length _ _ _ Hcons1), <- (Forall2_length _ _ _ Hcons2).
    apply filter_length_mono. unfold agreed. intros c. lia.
  - rewrite Hst1, Hst2. simpl. rewrite Hrej1, Hrej2.
    apply concat_filter_length_mono. unfold agreed. intros c. lia.
Qed.

Lemma min_agreement_monotone_witness :
  ∃ r1 h1 r2 h2,
    build_consensus default_engine three_reviewers sample_store
      = Some (r1, h1)
    ∧ build_consensus (mkEngine 3 (85 # 100)) three_reviewers sample_store
      = Some (r2, h2)
    ∧ consensus_count (statistics r2) ≤ consensus_count (statistics r1)
    ∧ rejected_count (statistics r1) ≤ rejected_count (statistics r2).
Proof.
  apply (min_agreement_monotone default_engine (mkEngine 3 (85 # 100))
           three_reviewers sample_store).
  simpl. lia.
Defined.

Lemma list_ascii_of_app (s t : string) :
  String.list_ascii_of_string (s +:+ t)
  = String.list_ascii_of_string s ++ String.list_ascii_of_string t.
Proof. induction s as [|c s IH]; simpl; [done|]. by rewrite IH. Qed.

(** The number can be read back from the text of a rejection. *)
Lemma rejection_text_inj (n m : nat) :
  "Only " +:+ pretty n +:+ " agent(s) agreed"
  = "Only " +:+ pretty m +:+ " agent(s) agreed" →
  n = m.
Proof.
  intros E. apply (inj (String.append "Only ")) in E.
  apply (f_equal String.list_ascii_of_string) in E.
  rewrite !list_ascii_of_app in E. apply app_inv_tail in E.
  apply (f_equal String.string_of_list_ascii) in E.
  rewrite !String.string_of_list_ascii_of_string in E.
  by apply (inj pretty).
Qed.

(** C7: a cluster below [min_agreement] gets no consensus finding (the
    consensus findings are built, one each and in order, from the clusters
    that meet the threshold), its members are appended to the rejected
    findings, once each and in order, and each of them carries the reason
    [Only N agent(s) agreed] with [N] the size of the cluster in decimal
    digits, and with no other number: members of a cluster of one finding
    carry [Only 1 agent(s) agreed], as under [min_agreement = 2], and those
    of a cluster of twelve carry [Only 12 agent(s) agreed]. *)
Theorem rejected_below_min_agreement (self : ConsensusEngine)
    (agent_results : list AgentResult) (h : gmap loc Finding) :
  ∃ h1 r h2,
    collect_results agent_results [] h = (input_findings agent_results, h1)
    ∧ build_consensus self agent_results h = Some (r, h2)
    ∧ Forall2
        (λ c f, _build_consensus_finding self ((h1 !!!.) <$> c) = Some f)
        (filter (agreed self)
           (_cluster_findings self h1 (input_findings agent_results)))
        (consensus_findings r)
    ∧ rejected_findings r =
        concat (filter (λ c, ¬ agreed self c)
                  (_cluster_findings self h1 (input_findings agent_results)))
    ∧ (∀ c l,
         c ∈ _cluster_findings self h1 (input_findings agent_results) →
         ¬ agreed self c → l ∈ c →
         rejection_reason (h2 !!! l)
         = Some ("Only " +:+ pretty (length c) +:+ " agent(s) agreed")
         ∧ (∀ n : nat,
              rejection_reason (h2 !!! l)
              = Some ("Only " +:+ pretty n +:+ " agent(s) agreed") →
              n = length c)
         ∧ (length c = 1 →
            rejection_reason (h2 !!! l) = Some "Only 1 agent(s) agreed")
         ∧ (length c = 12 →
            rejection_reason (h2 !!! l) = Some "Only 12 agent(s) agreed"))
    ∧ (∀ l,
         min_agreement self = 2%Z →
         [l] ∈ _cluster_findings self h1 (input_findings agent_results) →
         rejection_reason (h2 !!! l) = Some "Only 1 agent(s) agreed").
Proof.
  destruct (build_consensus_spec self agent_results h)
    as (h1 & r & h2 & Hcoll & _ & Hrun & Hcons & Hrej & _ & Hreason & _).
  exists h1, r, h2. split_and!; try done.
  - intros c l Hc Hagreed Hl.
    pose proof (Hreason c l Hc Hagreed Hl) as E.
    unfold rejection_text in E. split_and!.
    + exact E.
    + intros n En. rewrite E in En. apply (inj Some) in En.
      symmetry. by apply rejection_text_inj.
    + intros Hlen. by rewrite E, Hlen.
    + intros Hlen. by rewrite E, Hlen.
  - intros l Hmin Hl.
    apply (Hreason [l] l Hl); [|left].
    unfold agreed. rewrite Hmin. simpl. lia.
Qed.



(** ** Runs without findings *)

Lemma collect_results_silent (agent_results : list AgentResult)
    (all : list loc) (h : gmap loc Finding) :
  Forall (λ r, default [] (findings r) = []) agent_results →
  collect_results agent_results all h = (all, h).
Proof.
  induction 1 as [|r rs Hr _ IH]; [done|].
  simpl. rewrite Hr. simpl. exact IH.
Qed.

(** C8: when every reviewer contributes no finding (in particular for the
    empty list of reviewers) [build_consensus] returns, with [total_agents]
    the number of reviewer records, empty consensus and rejected lists, and
    the three statistics equal to zero. *)
Theorem build_consensus_without_findings (self : ConsensusEngine)
    (agent_results : list AgentResult) (h : gmap loc Finding) :
  Forall (λ r, default [] (findings r) = []) agent_results →
  build_consensus self agent_results h
  = Some (empty_result self (length agent_results), h).
Proof.
  intros Hsilent. unfold build_consensus.
  by rewrite (collect_results_silent _ _ _ Hsilent).
Qed.

Lemma build_consensus_without_findings_witness :
  build_consensus default_engine [] sample_store
    = Some (empty_result default_engine 0, sample_store)
  ∧ build_consensus default_engine silent_reviewers sample_store
    = Some (empty_result default_engine 2, sample_store).
Proof.
  split.
  - apply (build_consensus_without_findings default_engine [] sample_store).
    constructor.
  - apply (build_consensus_without_findings default_engine silent_reviewers
             sample_store).
    repeat constructor.
Defined.

(** * Further properties *)

(** ** The clusters, without indices *)

Lemma filter_fmap_snd {A B} (P : B → Prop) (Q : A * B → Prop)
    `{!∀ y, Decision (P y)} `{!∀ p, Decision (Q p)} (l : list (A * B)) :
  (∀ p, Q p ↔ P p.2) → (filter Q l).*2 = filter P l.*2.
Proof.
  intros HQ. induction l as [|p l IH]; [done|].
  rewrite fmap_cons, !filter_cons. specialize (HQ p).
  destruct (decide (Q p)), (decide (P p.2)); rewrite ?fmap_cons, IH;
    tauto || done.
Qed.

Lemma filter_none {A} (P : A → Prop) `{!∀ x, Decision (P x)} (l : list A) :
  (∀ x, x ∈ l → ¬ P x) → filter P l = [].
Proof.
  induction l as [|x l IH]; intros Hl; [done|].
  rewrite filter_cons_False by (apply Hl; left).
  apply IH. intros y Hy. apply Hl. by right.
Qed.

Lemma filter_all {A} (P : A → Prop) `{!∀ x, Decision (P x)} (l : list A) :
  (∀ x, x ∈ l → P x) → filter P l = l.
Proof.
  induction l as [|x l IH]; intros Hl; [done|].
  rewrite filter_cons_True by (apply Hl; left).
  f_equal. apply IH. intros y Hy. apply Hl. by right.
Qed.

Lemma greedy_clusters_nil (sim : loc → loc → bool) (n : nat) :
  greedy_clusters sim n [] = [].
Proof. by destruct n. Qed.

Section Greedy.

Context (self : ConsensusEngine) (h : gmap loc Finding).
Context (all : list (nat * loc)) (Hall : NoDup all.*1).

(** The outer loop, started on a suffix of the enumeration whose earlier
    entries are all used, appends the greedy clusters of the unused
    entries. *)
Lemma cluster_outer_greedy (rest pre : list (nat * loc))
    (clusters : list (list loc)) (used : gset nat) (n : nat) :
  all = pre ++ rest →
  (∀ p, p ∈ pre → p.1 ∈ used) →
  length (unused used rest) ≤ n →
  cluster_outer self h all rest clusters used
  = clusters ++ greedy_clusters (similar_in self h) n (unused used rest).*2.
Proof.
  revert pre clusters used n.
  induction rest as [|[i finding1] rest IH];
    intros pre clusters used n Hsplit Hpre Hlen.
  { simpl. by rewrite greedy_clusters_nil, app_nil_r. }
  assert (Hsplit' : all = (pre ++ [(i, finding1)]) ++ rest)
    by (by rewrite <- app_assoc).
  assert (Hirest : ∀ p, p ∈ rest → p.1 ≠ i).
  { intros p Hp Heq. rewrite Hsplit, fmap_app, fmap_cons in Hall.
    apply NoDup_app in Hall as (_ & _ & Hnd).
    apply NoDup_cons in Hnd as [Hni _]. apply Hni. simpl. rewrite <- Heq.
    by apply list_elem_of_fmap_2. }
  simpl. destruct (decide (i ∈ used)) as [Hi|Hi].
  - rewrite bool_decide_eq_true_2 by done.
    unfold unused in *. rewrite filter_cons_False in * by (simpl; tauto).
    apply (IH (pre ++ [(i, finding1)])); [done| |done].
    intros p Hp. apply elem_of_app in Hp as [Hp|Hp]; [by apply Hpre|].
    by apply list_elem_of_singleton in Hp as ->.
  - rewrite bool_decide_eq_false_2 by done.
    rewrite cluster_inner_picked by (done || set_solver).
    assert (Hun : unused used ((i, finding1) :: rest)
                  = (i, finding1) :: unused used rest).
    { unfold unused. by rewrite filter_cons_True. }
    rewrite Hun in *. simpl in Hlen.
    destruct n as [|n]; [lia|]. rewrite fmap_cons. simpl.
    set (pk := picked self h finding1 ({[i]} ∪ used) all).
    assert (Hpk : pk = filter (λ p, similar_in self h finding1 p.2 = true)
                         (unused used rest)).
    { unfold pk, picked, unused. rewrite Hsplit, !filter_app.
      rewrite (filter_none _ pre) by (intros p Hp [Hu _]; apply Hu;
                                       apply elem_of_union_r; by apply Hpre).
      rewrite filter_cons_False by (simpl; set_solver).
      simpl. rewrite list_filter_filter. apply filter_ext_in.
      intros p Hp. specialize (Hirest p Hp). set_solver. }
    assert (Hrest : unused (({[i]} ∪ used) ∪ list_to_set pk.*1) rest
                    = filter (λ p, similar_in self h finding1 p.2 ≠ true)
                        (unused used rest)).
    { unfold unused. rewrite list_filter_filter. apply filter_ext_in.
      intros p Hp. specialize (Hirest p Hp).
      assert (Hpall : p ∈ all).
      { rewrite Hsplit. apply elem_of_app. right. by right. }
      pose proof (picked_index self h finding1 ({[i]} ∪ used) all p
                    Hall Hpall) as Hidx.
      fold pk in Hidx. set_solver. }
    rewrite (IH (pre ++ [(i, finding1)]) _ _ n Hsplit').
    + assert (pk.*2 = filter (λ y, similar_in self h finding1 y = true)
                          (unused used rest).*2) as Hpk2.
      { rewrite Hpk.
        by apply (filter_fmap_snd
                    (λ y, similar_in self h finding1 y = true)). }
      assert ((unused (({[i]} ∪ used) ∪ list_to_set pk.*1) rest).*2
              = filter (λ y, similar_in self h finding1 y ≠ true)
                  (unused used rest).*2) as Hrest2.
      { rewrite Hrest.
        by apply (filter_fmap_snd
                    (λ y, similar_in self h finding1 y ≠ true)). }
      rewrite Hrest2, Hpk2. by rewrite <- app_assoc.
    + intros p Hp. apply elem_of_app in Hp as [Hp|Hp].
      * apply elem_of_union_l, elem_of_union_r. by apply Hpre.
      * apply list_elem_of_singleton in Hp as ->. set_solver.
    + rewrite Hrest. etrans; [apply length_filter|lia].
Qed.

End Greedy.

Lemma cluster_findings_greedy (self : ConsensusEngine) (h : gmap loc Finding)
    (findings : list loc) (n : nat) :
  length findings ≤ n →
  _cluster_findings self h findings
  = greedy_clusters (similar_in self h) n findings.
Proof.
  intros Hn. unfold _cluster_findings.
  rewrite (cluster_outer_greedy self h (enumerate findings)
             (enumerate_NoDup findings) (enumerate findings) [] [] ∅ n).
  - rewrite unused_empty. unfold enumerate. by rewrite enumerate_from_snd.
  - done.
  - intros p Hp. by apply elem_of_nil in Hp.
  - rewrite unused_empty.
    rewrite <- (length_fmap snd). unfold enumerate.
    by rewrite enumerate_from_snd.
Qed.

(** X1: the double loop over indices computes the greedy clustering: no
    cluster for no finding; otherwise the first finding heads a cluster
    made of the later findings similar to it, in input order, and the
    findings not similar to it are clustered by the same rule. *)
Theorem cluster_findings_unfold (self : ConsensusEngine)
    (h : gmap loc Finding) :
  _cluster_findings self h [] = []
  ∧ ∀ (x : loc) (rest : list loc),
      _cluster_findings self h (x :: rest)
      = (x :: filter (λ y, similar_in self h x y = true) rest)
        :: _cluster_findings self h
             (filter (λ y, similar_in self h x y ≠ true) rest).
Proof.
  split; [done|]. intros x rest.
  rewrite (cluster_findings_greedy self h (x :: rest) (S (length rest)))
    by done.
  simpl. f_equal. symmetry. apply cluster_findings_greedy, length_filter.
Qed.

Lemma greedy_clusters_seeded (sim : loc → loc → bool) (n : nat)
    (fs : list loc) :
  Forall (λ c, ∃ s m, c = s :: m ∧ Forall (λ l, sim s l = true) m)
    (greedy_clusters sim n fs).
Proof.
  revert fs. induction n as [|n IH]; intros [|x rest]; simpl;
    try by constructor.
  constructor; [|apply IH].
  eexists x, _. split; [done|].
  apply Forall_forall. intros l Hl.
  by apply list_elem_of_filter in Hl as [Hl _].
Qed.

Lemma greedy_clusters_sublist (sim : loc → loc → bool) (n : nat)
    (fs : list loc) :
  Forall (λ c, c `sublist_of` fs) (greedy_clusters sim n fs).
Proof.
  revert fs. induction n as [|n IH]; intros [|x rest]; simpl;
    try by constructor.
  constructor.
  - apply sublist_skip, sublist_filter.
  - eapply Forall_impl; [apply IH|]. intros c Hc. simpl in Hc.
    apply sublist_cons. etrans; [exact Hc|]. apply sublist_filter.
Qed.

Lemma greedy_clusters_order (sim : loc → loc → bool) (n : nat)
    (fs : list loc) (i j : nat) (s l : loc) (ci cj : list loc) :
  i < j →
  greedy_clusters sim n fs !! i = Some (s :: ci) →
  greedy_clusters sim n fs !! j = Some cj →
  l ∈ cj → sim s l = false.
Proof.
  revert fs i j. induction n as [|n IH]; intros [|x rest] i j Hij Hi Hj Hl;
    simpl in *; try done.
  destruct j as [|j]; [lia|]. simpl in Hj.
  destruct i as [|i]; simpl in Hi.
  - injection Hi as -> _.
    pose proof (greedy_clusters_sublist sim n
                  (filter (λ y, sim s y ≠ true) rest)) as Hsub.
    rewrite Forall_forall in Hsub.
    specialize (Hsub cj (list_elem_of_lookup_2 _ _ _ Hj)).
    eapply elem_of_sublist in Hl; [|exact Hsub].
    apply list_elem_of_filter in Hl as [Hl _].
    by destruct (sim s l).
  - eapply (IH _ i j); [lia|done..].
Qed.

(** X2: every cluster starts with its seed, and every other member is
    similar to that seed. *)
Theorem cluster_members_similar_to_seed (self : ConsensusEngine)
    (h : gmap loc Finding) (findings : list loc) :
  Forall (λ c, ∃ seed members,
            c = seed :: members
            ∧ Forall (λ l, similar_in self h seed l = true) members)
    (_cluster_findings self h findings).
Proof.
  rewrite (cluster_findings_greedy self h findings (length findings)) by done.
  apply greedy_clusters_seeded.
Qed.

(** X3: a finding joins the first cluster whose seed it is similar to: no
    member of a later cluster is similar to the seed of an earlier one. *)
Theorem later_clusters_dissimilar_to_earlier_seeds (self : ConsensusEngine)
    (h : gmap loc Finding) (findings : list loc) (i j : nat)
    (seed l : loc) (ci cj : list loc) :
  i < j →
  _cluster_findings self h findings !! i = Some (seed :: ci) →
  _cluster_findings self h findings !! j = Some cj →
  l ∈ cj →
  similar_in self h seed l = false.
Proof.
  rewrite (cluster_findings_greedy self h findings (length findings)) by done.
  apply greedy_clusters_order.
Qed.

Lemma later_clusters_dissimilar_to_earlier_seeds_witness :
  similar_in default_engine sample_store 0 2 = false.
Proof.
  apply (later_clusters_dissimilar_to_earlier_seeds default_engine
           sample_store [0; 2; 1] 0 1 0 2 [1] [2]); [lia|done|done|].
  apply list_elem_of_here.
Defined.

(** X4: inside a cluster the findings keep their input order: every
    cluster is a subsequence of the input. *)
Theorem clusters_keep_input_order (self : ConsensusEngine)
    (h : gmap loc Finding) (findings : list loc) :
  Forall (λ c, c `sublist_of` findings) (_cluster_findings self h findings).
Proof.
  rewrite (cluster_findings_greedy self h findings (length findings)) by done.
  apply greedy_clusters_sublist.
Qed.

(** X5: when every later finding is similar to the first one, the input
    is one cluster, unchanged. *)
Theorem one_cluster_when_all_similar_to_first (self : ConsensusEngine)
    (h : gmap loc Finding) (x : loc) (rest : list loc) :
  Forall (λ l, similar_in self h x l = true) rest →
  _cluster_findings self h (x :: rest) = [x :: rest].
Proof.
  intros Hsim. rewrite Forall_forall in Hsim.
  rewrite (cluster_findings_greedy self h (x :: rest) (S (length rest)))
    by done.
  simpl. rewrite filter_all by done.
  rewrite filter_none by (intros l Hl Hn; by apply Hn, Hsim).
  by rewrite greedy_clusters_nil.
Qed.

Lemma one_cluster_when_all_similar_to_first_witness :
  _cluster_findings default_engine sample_store [0; 1] = [[0; 1]].
Proof.
  apply (one_cluster_when_all_similar_to_first default_engine sample_store
           0 [1]).
  repeat constructor.
Defined.

(** X6: when no finding is similar to a later one, every finding is a
    cluster of its own, in input order. *)
Theorem singletons_when_none_similar (self : ConsensusEngine)
    (h : gmap loc Finding) (findings : list loc) :
  (∀ i j x y, i < j → findings !! i = Some x → findings !! j = Some y →
              similar_in self h x y = false) →
  _cluster_findings self h findings = (λ l, [l]) <$> findings.
Proof.
  rewrite (cluster_findings_greedy self h findings (length findings)) by done.
  induction findings as [|x rest IH]; intros Hdis; [done|].
  assert (Hx : ∀ l, l ∈ rest → similar_in self h x l = false).
  { intros l Hl. apply list_elem_of_lookup in Hl as [j Hj].
    apply (Hdis 0 (S j)); [lia|done..]. }
  simpl.
  rewrite filter_none by (intros l Hl Hs; rewrite (Hx l Hl) in Hs; done).
  rewrite filter_all by (intros l Hl Hs; rewrite (Hx l Hl) in Hs; done).
  f_equal. apply IH. intros i j a b Hij Ha Hb.
  apply (Hdis (S i) (S j)); [lia|done..].
Qed.

Lemma singletons_when_none_similar_witness :
  _cluster_findings default_engine sample_store [0; 2] = [[0]; [2]].
Proof.
  apply (singletons_when_none_similar default_engine sample_store [0; 2]).
  intros [|[|i]] [|[|[|j]]] x y Hij Hx Hy; simpl in *; try lia; try done.
  by injection Hx as <-; injection Hy as <-.
Defined.

(** ** Thresholds at the two ends *)

Lemma filter_concat_all_disagree (self : ConsensusEngine)
    (cs : list (list loc)) :
  (∀ c, c ∈ cs → ¬ agreed self c) →
  filter (agreed self) cs = []
  ∧ filter (λ c, ¬ agreed self c) cs = cs.
Proof.
  intros H. split; [by apply filter_none|by apply filter_all].
Qed.

Lemma filter_concat_all_agree (self : ConsensusEngine)
    (cs : list (list loc)) :
  (∀ c, c ∈ cs → agreed self c) →
  filter (agreed self) cs = cs
  ∧ filter (λ c, ¬ agreed self c) cs = [].
Proof.
  intros H. split; [by apply filter_all|].
  apply filter_none. intros c Hc Hn. by apply Hn, H.
Qed.

(** X7: with [min_agreement] at most 1 nothing is rejected: every cluster
    yields a consensus finding, the agreement counts add up to the number of
    input findings, and no [rejection_reason] is written. *)
Theorem nothing_rejected_when_threshold_at_most_one (self : ConsensusEngine)
    (agent_results : list AgentResult) (h : gmap loc Finding) :
  (min_agreement self <= 1)%Z →
  ∃ r h2,
    build_consensus self agent_results h = Some (r, h2)
    ∧ rejected_findings r = []
    ∧ rejected_count (statistics r) = 0
    ∧ agreement_total (consensus_findings r) = total_findings (statistics r)
    ∧ ∀ l, rejection_reason (h2 !!! l) = rejection_reason (h !!! l).
Proof.
  intros Hmin.
  destruct (build_consensus_spec self agent_results h)
    as (h1 & r & h2 & _ & Hsrc & Hrun & Hcons & Hrej & Htags & _ & _ & _ & Hst).
  destruct (cluster_findings_inv self h1 (input_findings agent_results))
    as (Hperm & Hne & _).
  set (cs := _cluster_findings self h1 (input_findings agent_results)) in *.
  destruct (filter_concat_all_agree self cs) as [Hall Hnone].
  { intros c Hc. rewrite Forall_forall in Hne. specialize (Hne c Hc).
    unfold agreed. destruct c; [done|]. simpl length. lia. }
  rewrite Hnone in Hrej. simpl in Hrej. rewrite Hall in Hcons.
  exists r, h2. rewrite Hst. simpl. rewrite Hrej.
  split_and!; [done..| |].
  - rewrite (agreement_total_clusters _ _ _ _ Hcons).
    by apply Permutation_length.
  - intros l. destruct (Htags l) as (_ & _ & Hframe).
    rewrite Hframe by (rewrite Hrej; apply not_elem_of_nil).
    by destruct (Hsrc l) as (_ & -> & _).
Qed.

Lemma nothing_rejected_when_threshold_at_most_one_witness :
  ∃ r h2,
    build_consensus (mkEngine 1 (85 # 100)) three_reviewers sample_store
      = Some (r, h2)
    ∧ rejected_findings r = []
    ∧ rejected_count (statistics r) = 0
    ∧ agreement_total (consensus_findings r) = total_findings (statistics r)
    ∧ ∀ l, rejection_reason (h2 !!! l)
           = rejection_reason (sample_store !!! l).
Proof.
  apply (nothing_rejected_when_threshold_at_most_one
           (mkEngine 1 (85 # 100)) three_reviewers sample_store).
  simpl. lia.
Defined.

(** X8: with [min_agreement] above the number of input findings no
    consensus finding is produced and every input finding is rejected,
    once. *)
Theorem everything_rejected_when_threshold_exceeds_input
    (self : ConsensusEngine) (agent_results : list AgentResult)
    (h : gmap loc Finding) :
  (Z.of_nat (length (input_findings agent_results)) < min_agreement self)%Z →
  ∃ r h2,
    build_consensus self agent_results h = Some (r, h2)
    ∧ consensus_findings r = []
    ∧ consensus_count (statistics r) = 0
    ∧ rejected_findings r ≡ₚ input_findings agent_results
    ∧ rejected_count (statistics r) = total_findings (statistics r).
Proof.
  intros Hmin.
  destruct (build_consensus_spec self agent_results h)
    as (h1 & r & h2 & _ & _ & Hrun & Hcons & Hrej & _ & _ & _ & _ & Hst).
  destruct (cluster_findings_inv self h1 (input_findings agent_results))
    as (Hperm & _ & _).
  set (cs := _cluster_findings self h1 (input_findings agent_results)) in *.
  destruct (filter_concat_all_disagree self cs) as [Hnone Hall].
  { intros c Hc. unfold agreed.
    assert (length c ≤ length (concat cs)).
    { clear -Hc. induction cs as [|c' cs IH]; [by apply elem_of_nil in Hc|].
      simpl. rewrite length_app.
      apply elem_of_cons in Hc as [->|Hc]; [lia|]. specialize (IH Hc). lia. }
    rewrite (Permutation_length Hperm) in *. lia. }
  rewrite Hall in Hrej. rewrite Hnone in Hcons.
  apply Forall2_nil_inv_l in Hcons.
  exists r, h2. rewrite Hst. simpl. rewrite Hcons, Hrej.
  split_and!; [done..| |]; [done|by apply Permutation_length].
Qed.

Lemma everything_rejected_when_threshold_exceeds_input_witness :
  ∃ r h2,
    build_consensus (mkEngine 4 (85 # 100)) three_reviewers sample_store
      = Some (r, h2)
    ∧ consensus_findings r = []
    ∧ consensus_count (statistics r) = 0
    ∧ rejected_findings r ≡ₚ input_findings three_reviewers
    ∧ rejected_count (statistics r) = total_findings (statistics r).
Proof.
  apply (everything_rejected_when_threshold_exceeds_input
           (mkEngine 4 (85 # 100)) three_reviewers sample_store).
  vm_compute. reflexivity.
Defined.

(** ** Reviewers without findings *)

Lemma collect_results_app (rs1 rs2 : list AgentResult) (all : list loc)
    (h : gmap loc Finding) :
  collect_results (rs1 ++ rs2) all h
  = collect_results rs2 (collect_results rs1 all h).1
      (collect_results rs1 all h).2.
Proof.
  revert all h. induction rs1 as [|r rs1 IH]; intros all h; [done|].
  simpl.
  destruct (collect_findings (default "unknown" (agent r))
              (default [] (findings r)) all h) as [all' h'].
  apply IH.
Qed.

(** X9: a reviewer record without findings, such as the placeholder the
    agent manager appends for a reviewer that failed, changes nothing but
    [total_agents], wherever it stands in the list. *)
Theorem silent_reviewer_only_counts (self : ConsensusEngine)
    (rs1 rs2 : list AgentResult) (p : AgentResult) (h : gmap loc Finding) :
  default [] (findings p) = [] →
  ∃ r h2,
    build_consensus self (rs1 ++ rs2) h = Some (r, h2)
    ∧ build_consensus self (rs1 ++ p :: rs2) h
      = Some (with_one_more_agent r, h2).
Proof.
  intros Hp.
  destruct (build_consensus_spec self (rs1 ++ rs2) h)
    as (h1 & r & h2 & _ & _ & Hrun & _).
  exists r, h2. split; [done|].
  unfold build_consensus in *.
  rewrite collect_results_app in Hrun. rewrite collect_results_app. simpl.
  rewrite Hp. simpl.
  destruct (collect_results rs1 [] h) as [all1 ha]. simpl in *.
  destruct (collect_results rs2 all1 ha) as [all2 hb].
  destruct (decide_clusters self (_cluster_findings self hb all2) [] [] hb)
    as [[[cons rej] hc]|]; simpl in *; [|done].
  injection Hrun as <- <-. unfold with_one_more_agent. simpl.
  do 3 f_equal. rewrite !length_app. simpl. lia.
Qed.

Lemma silent_reviewer_only_counts_witness :
  ∃ r h2,
    build_consensus default_engine (two_reviewers ++ []) sample_store
      = Some (r, h2)
    ∧ build_consensus default_engine
        (two_reviewers ++ failed_reviewer "deepseek" :: []) sample_store
      = Some (with_one_more_agent r, h2).
Proof.
  apply (silent_reviewer_only_counts default_engine two_reviewers []
           (failed_reviewer "deepseek") sample_store).
  reflexivity.
Defined.

(** ** The reviewer tag *)

Lemma collect_findings_tag (a : string) (fs all : list loc)
    (h : gmap loc Finding) (l : loc) :
  l ∈ fs →
  source_agent ((collect_findings a fs all h).2 !!! l) = Some a.
Proof.
  revert all h. induction fs as [|x fs IH]; intros all h Hl.
  { by apply elem_of_nil in Hl. }
  simpl. destruct (decide (l ∈ fs)) as [Hin|Hout]; [by apply IH|].
  apply elem_of_cons in Hl as [->|Hl]; [|done].
  destruct (collect_findings_spec a fs (all ++ [x])
              (<[x := set_source_agent a (h !!! x)]> h)) as (h' & -> & Htags).
  simpl. destruct (Htags x) as (_ & _ & _ & Hframe).
  rewrite Hframe by done. by rewrite lookup_total_insert_eq.
Qed.

(** X10: after a run every input finding carries, as [source_agent], the
    name of the last reviewer that lists it ([unknown] when that
    reviewer's record has no name). *)
Theorem source_agent_is_last_reviewer (self : ConsensusEngine)
    (rs1 rs2 : list AgentResult) (r : AgentResult) (h : gmap loc Finding)
    (l : loc) :
  l ∈ default [] (findings r) →
  l ∉ input_findings rs2 →
  ∃ res h2,
    build_consensus self (rs1 ++ r :: rs2) h = Some (res, h2)
    ∧ source_agent (h2 !!! l) = Some (default "unknown" (agent r)).
Proof.
  intros Hl Hlater.
  destruct (build_consensus_spec self (rs1 ++ r :: rs2) h)
    as (h1 & res & h2 & Hcoll & _ & Hrun & _ & _ & Htags & _).
  exists res, h2. split; [done|].
  destruct (Htags l) as (_ & -> & _).
  rewrite collect_results_app in Hcoll. simpl in Hcoll.
  destruct (collect_results rs1 [] h) as [all1 ha]. simpl in Hcoll.
  pose proof (collect_findings_tag (default "unknown" (agent r))
                (default [] (findings r)) all1 ha l Hl) as Htag.
  destruct (collect_findings (default "unknown" (agent r))
              (default [] (findings r)) all1 ha) as [all2 hb].
  simpl in Htag.
  destruct (collect_results_spec rs2 all2 hb) as (hc & Hc & Hsrc).
  rewrite Hc in Hcoll. injection Hcoll as _ <-.
  destruct (Hsrc l) as (_ & _ & _ & Hframe). by rewrite Hframe.
Qed.

Lemma source_agent_is_last_reviewer_witness :
  ∃ res h2,
    build_consensus default_engine
      ([mkAgentResult (Some "gpt") (Some [0; 2])]
       ++ mkAgentResult None (Some [0]) :: [mkAgentResult (Some "grok") (Some [1])])
      sample_store = Some (res, h2)
    ∧ source_agent (h2 !!! 0) = Some "unknown".
Proof.
  apply (source_agent_is_last_reviewer default_engine
           [mkAgentResult (Some "gpt") (Some [0; 2])]
           [mkAgentResult (Some "grok") (Some [1])]
           (mkAgentResult None (Some [0])) sample_store 0).
  - apply list_elem_of_here.
  - vm_compute. intros H. apply list_elem_of_singleton in H. discriminate.
Defined.

(** ** The consensus record *)

(** X11: every consensus finding of a run records at least
    [min_agreement] agreeing reviewers, and at least one: its
    [agreement_count] meets the threshold, its [source_agents] list has that
    many entries, and it is marked verified. *)
Theorem consensus_findings_meet_threshold (self : ConsensusEngine)
    (agent_results : list AgentResult) (h : gmap loc Finding) :
  ∃ r h2,
    build_consensus self agent_results h = Some (r, h2)
    ∧ Forall
        (λ f, ∃ info,
           consensus_info f = Some info
           ∧ (min_agreement self <= Z.of_nat (agreement_count info))%Z
           ∧ 1 ≤ agreement_count info
           ∧ length (source_agents info) = agreement_count info
           ∧ verified info = true)
        (consensus_findings r).
Proof.
  destruct (build_consensus_spec self agent_results h)
    as (h1 & r & h2 & _ & Hsrc & Hrun & Hcons & _).
  destruct (cluster_findings_inv self h1 (input_findings agent_results))
    as (Hperm & Hne & _).
  exists r, h2. split; [done|].
  apply Forall_forall. intros f Hf.
  apply list_elem_of_lookup in Hf as [i Hf].
  destruct (Forall2_lookup_r _ _ _ _ _ Hcons Hf) as (c & Hc & Hbuild).
  apply list_elem_of_lookup_2, list_elem_of_filter in Hc as [Hag Hc].
  rewrite Forall_forall in Hne. specialize (Hne c Hc).
  destruct (build_consensus_finding_returns self ((h1 !!!.) <$> c))
    as (k & base & agents & _ & Hagents & Heq).
  { by destruct c. }
  { apply Forall_fmap, Forall_forall. intros l Hl. simpl.
    destruct (Hsrc l) as (_ & _ & Hs & _). apply Hs.
    rewrite <- Hperm. apply elem_of_concat. eauto. }
  rewrite Hbuild in Heq. injection Heq as ->.
  eexists. split; [done|]. simpl. rewrite length_fmap.
  split_and!; [done| |  |done].
  - destruct c; [done|]. simpl. lia.
  - apply (f_equal length) in Hagents. rewrite !length_fmap in Hagents.
    done.
Qed.

(** ** Confidence *)

Lemma float_after_last_integer :
  Py.float (inject_Z (2 ^ 53 + 1)) = inject_Z (2 ^ 53).
Proof. vm_compute. reflexivity. Qed.

(** A float sum of [n] numbers between 0 and 1 lies between 0 and [n], and
    never passes [2^53], where adding 1 changes nothing any more. *)
Lemma sum_by_bounds {A} (key : A → Q) (l : list A) (acc : Q) (k : Z) :
  Forall (λ x, (0 <= key x <= 1)%Q) l →
  (0 ≤ k)%Z →
  (0 <= acc <= inject_Z (Z.min k (2 ^ 53)))%Q →
  (0 <= foldl (λ acc x, Py.float (acc + key x)) acc l
   <= inject_Z (Z.min (k + Z.of_nat (length l)) (2 ^ 53)))%Q.
Proof.
  intros Hl. revert acc k.
  induction Hl as [|x l [Hx0 Hx1] _ IH]; intros acc k Hk [Ha0 Ha1].
  { simpl. by rewrite Z.add_0_r. }
  cbn [foldl length].
  replace (k + Z.of_nat (S (length l)))%Z
    with ((k + 1) + Z.of_nat (length l))%Z by lia.
  apply IH; [lia|]. split; [apply float_nonneg; lra|].
  apply (Qle_trans _ (Py.float (inject_Z (Z.min k (2 ^ 53) + 1)))).
  { apply float_mono; [lra|].
    rewrite inject_Z_plus. change (inject_Z 1) with 1%Q. lra. }
  destruct (decide (k < 2 ^ 53)%Z) as [Hlt|Hge].
  - rewrite float_Z by lia. rewrite <- Zle_Qle. lia.
  - rewrite !Z.min_r by lia. rewrite float_after_last_integer.
    apply Qle_refl.
Qed.

Lemma truediv_float_unit_interval (s : Q) (n : nat) :
  0 < n →
  (0 <= s <= inject_Z (Z.min (Z.of_nat n) (2 ^ 53)))%Q →
  (0 <= Py.truediv_float s n <= 1)%Q.
Proof.
  intros Hn [Hs0 Hs1]. unfold Py.truediv_float.
  set (d := Py.float (inject_Z (Z.of_nat n))).
  assert (Hd : (inject_Z (Z.min (Z.of_nat n) (2 ^ 53)) <= d)%Q).
  { rewrite <- (float_Z (Z.min (Z.of_nat n) (2 ^ 53))) by lia.
    apply float_mono.
    - change 0%Q with (inject_Z 0). rewrite <- Zle_Qle. lia.
    - rewrite <- Zle_Qle. lia. }
  assert (Hd1 : (1 <= d)%Q).
  { eapply Qle_trans; [|exact Hd].
    change 1%Q with (inject_Z 1). rewrite <- Zle_Qle. lia. }
  apply float_unit_interval. split.
  - apply Qle_shift_div_l; lra.
  - apply Qle_shift_div_r; lra.
Qed.

Lemma round_half_even_percent (y : Q) :
  (0 <= y <= 100)%Q → (0 <= Py.round_half_even y <= 100)%Z.
Proof.
  intros [H0 H100]. unfold Py.round_half_even.
  pose proof (Qfloor_le y) as Hlo.
  assert (Hf0 : (0 <= Qfloor y)%Z).
  { change 0%Z with (Qfloor 0). by apply Qfloor_resp_le. }
  assert (Hf100 : (Qfloor y <= 100)%Z).
  { change 100%Z with (Qfloor 100). by apply Qfloor_resp_le. }
  set (f := Qfloor y) in *.
  destruct (Qcompare_spec (y - inject_Z f) (1 # 2)) as [E|E|E];
    [destruct (Z.even f)| |]; try lia.
  - destruct (decide (f = 100%Z)) as [->|]; [|lia].
    exfalso. change (inject_Z 100) with 100%Q in E. lra.
  - destruct (decide (f = 100%Z)) as [->|]; [|lia].
    exfalso. change (inject_Z 100) with 100%Q in E. lra.
Qed.

Lemma round2_unit_interval (x : Q) :
  (0 <= x <= 1)%Q → (0 <= Py.round2 x <= 1)%Q.
Proof.
  intros [H0 H1]. unfold Py.round2.
  destruct (round_half_even_percent (x * 100)) as [Hr0 Hr1]; [split; lra|].
  rewrite Zle_Qle in Hr0, Hr1.
  set (r := inject_Z (Py.round_half_even (x * 100))) in *. clearbody r.
  change (inject_Z 0) with 0%Q in Hr0. change (inject_Z 100) with 100%Q in Hr1.
  apply float_unit_interval.
  change (r / 100)%Q with (r * (1 # 100))%Q. split; lra.
Qed.

(** X12: when every confidence that is present lies between 0 and 1, so
    does the [consensus_confidence] of the consensus finding. *)
Theorem consensus_confidence_in_unit_interval (self : ConsensusEngine)
    (cluster : list Finding) (f : Finding) :
  Forall (λ m, ∀ q, confidence m = Some q → (0 <= q <= 1)%Q) cluster →
  _build_consensus_finding self cluster = Some f →
  ∃ info,
    consensus_info f = Some info
    ∧ (0 <= consensus_confidence info <= 1)%Q.
Proof.
  intros Hconf Hbuild.
  assert (Hkey : Forall (λ m, (0 <= confidence_or_default m <= 1)%Q) cluster).
  { eapply Forall_impl; [exact Hconf|]. intros m Hm.
    unfold confidence_or_default. apply float_unit_interval.
    destruct (confidence m) as [q|] eqn:E; simpl.
    - by apply (Hm q).
    - split; lra. }
  unfold _build_consensus_finding in Hbuild.
  destruct (Py.max_by confidence_or_default cluster) as [base|] eqn:Hmax;
    [|done].
  destruct (mapM source_agent cluster) as [agents|]; [|done].
  simpl in Hbuild. injection Hbuild as <-.
  eexists. split; [done|]. simpl.
  apply round2_unit_interval, truediv_float_unit_interval.
  { destruct cluster; [done|]. simpl. lia. }
  apply (sum_by_bounds confidence_or_default cluster 0 0 Hkey); [done|].
  split; apply Qle_refl.
Qed.

Lemma consensus_confidence_in_unit_interval_witness :
  ∃ f info,
    _build_consensus_finding default_engine [xss_finding; sqli_finding]
      = Some f
    ∧ consensus_info f = Some info
    ∧ (0 <= consensus_confidence info <= 1)%Q.
Proof.
  assert (∃ f, _build_consensus_finding default_engine
                 [xss_finding; sqli_finding] = Some f) as [f E]
    by (eexists; vm_compute; reflexivity).
  exists f.
  destruct (consensus_confidence_in_unit_interval default_engine
              [xss_finding; sqli_finding] f) as (info & H1 & H2).
  - apply Forall_cons. split; [intros q Hq; discriminate Hq|].
    apply Forall_cons. split; [|by constructor].
    intros q [= <-]. split; unfold Qle; simpl; lia.
  - exact E.
  - exists info. split; [exact E|]. split; [exact H1|exact H2].
Defined.

(** ** More on similarity *)

(** X13: every finding is similar to itself, whatever its keys: its file
    path equals itself and its start line is at distance 0. *)
Theorem every_finding_similar_to_itself (self : ConsensusEngine)
    (a : Finding) :
  _are_similar self a a = true.
Proof. apply are_similar_refl. Qed.

(** X14: two findings with the same file path (or both without one) whose
    start lines are less than 5 apart are similar, whatever their
    categories and descriptions. *)
Theorem same_file_nearby_lines_similar (self : ConsensusEngine)
    (a b : Finding) :
  file_path (default empty_target (target a))
  = file_path (default empty_target (target b)) →
  (Z.abs (default 0 (start_line (default empty_target (target a)))
          - default 0 (start_line (default empty_target (target b)))) < 5)%Z →
  _are_similar self a b = true.
Proof.
  intros Hpath Hline. unfold _are_similar.
  assert (location_signal a b = true) as ->; [|by destruct (cwe_signal a b)].
  unfold location_signal; cbn zeta.
  rewrite bool_decide_eq_true_2 by done.
  by apply Z.ltb_lt in Hline as ->.
Qed.

Lemma same_file_nearby_lines_similar_witness :
  _are_similar default_engine app_py_10 app_py_12 = true.
Proof.
  apply (same_file_nearby_lines_similar default_engine app_py_10 app_py_12).
  - reflexivity.
  - simpl. lia.
Defined.

Lemma overlap_gt_half (n m : nat) :
  0 < m → Py.gt (Py.truediv n m) (1 # 2) = true ↔ m < 2 * n.
Proof.
  intros Hm. rewrite gt_true_iff. unfold Py.truediv.
  assert (Hq : (0 < inject_Z (Z.of_nat m))%Q).
  { change 0%Q with (inject_Z 0). rewrite <- Zlt_Qlt. lia. }
  split.
  - intros Hlt. destruct (decide (m < 2 * n)) as [|Hge]; [done|]. exfalso.
    apply (Qlt_not_le _ _ Hlt). apply Qle_shift_div_r; [done|].
    assert ((inject_Z (Z.of_nat n) * 2 <= inject_Z (Z.of_nat m))%Q).
    { change 2%Q with (inject_Z 2). rewrite <- inject_Z_mult, <- Zle_Qle. lia. }
    lra.
  - intros Hlt. apply Qlt_shift_div_l; [done|].
    assert ((inject_Z (Z.of_nat m) < inject_Z (Z.of_nat n) * 2)%Q).
    { change 2%Q with (inject_Z 2). rewrite <- inject_Z_mult, <- Zlt_Qlt. lia. }
    lra.
Qed.

Lemma cwe_signal_true_iff (a b : Finding) :
  cwe_signal a b = true
  ↔ Py.set (default [] (cwe a)) ≠ ∅
    ∧ Py.set (default [] (cwe b)) ≠ ∅
    ∧ size (Py.set (default [] (cwe a)) ∪ Py.set (default [] (cwe b)))
      < 2 * size (Py.set (default [] (cwe a)) ∩ Py.set (default [] (cwe b))).
Proof.
  unfold cwe_signal, Py.truthy; cbn zeta.
  set (A := Py.set (default [] (cwe a))).
  set (B := Py.set (default [] (cwe b))).
  rewrite !andb_true_iff, !bool_decide_eq_true.
  split.
  - intros [[HA HB] Hgt]. split_and!; [done..|].
    apply overlap_gt_half; [|done].
    assert (size (A ∪ B) ≠ 0); [|lia].
    apply size_non_empty_iff. set_solver.
  - intros (HA & HB & Hlt). split_and!; [done..|].
    apply overlap_gt_half; [|done].
    assert (size (A ∪ B) ≠ 0); [|lia].
    apply size_non_empty_iff. set_solver.
Qed.

(** X15: the category signal holds exactly when both findings have
    categories and the categories they share outnumber, doubled, all the
    categories of the two: the overlap exceeds one half. *)
Theorem cwe_signal_characterised (a b : Finding) :
  cwe_signal a b = true
  ↔ Py.set (default [] (cwe a)) ≠ ∅
    ∧ Py.set (default [] (cwe b)) ≠ ∅
    ∧ size (Py.set (default [] (cwe a)) ∪ Py.set (default [] (cwe b)))
      < 2 * size (Py.set (default [] (cwe a)) ∩ Py.set (default [] (cwe b))).
Proof. apply cwe_signal_true_iff. Qed.

(** X16: two findings with the same categories, in any order and with any
    repetition, and at least one category, are similar. *)
Theorem same_categories_similar (self : ConsensusEngine) (a b : Finding) :
  Py.set (default [] (cwe a)) = Py.set (default [] (cwe b)) →
  Py.set (default [] (cwe a)) ≠ ∅ →
  _are_similar self a b = true.
Proof.
  intros Heq Hne. unfold _are_similar.
  assert (cwe_signal a b = true) as ->; [|done].
  apply cwe_signal_true_iff. rewrite <- Heq.
  split_and!; [done..|].
  rewrite union_idemp_L, intersection_idemp_L.
  assert (size (Py.set (default [] (cwe a))) ≠ 0); [|lia].
  apply size_non_empty_iff. set_solver.
Qed.

Lemma same_categories_similar_witness :
  _are_similar default_engine two_cwe_finding two_cwe_finding' = true.
Proof.
  apply (same_categories_similar default_engine two_cwe_finding
           two_cwe_finding').
  - vm_compute. reflexivity.
  - vm_compute. discriminate.
Defined.

Lemma size_list_to_set_le (l : list string) :
  size (list_to_set l : gset string) ≤ length l.
Proof.
  induction l as [|x l IH].
  - by rewrite list_to_set_nil, size_empty.
  - rewrite list_to_set_cons, size_union_alt, size_singleton. simpl.
    assert (size (list_to_set l ∖ ({[x]} : gset string))
            ≤ size (list_to_set l : gset string)); [|lia].
    apply subseteq_size. set_solver.
Qed.

(** X17: the description signal needs more than 3 common words, so it
    never holds unless both descriptions have at least 4 words; a finding
    without description never matches by description. *)
Theorem description_signal_needs_four_words (a b : Finding) :
  description_signal a b = true →
  4 ≤ length (Py.split (Py.lower (default "" (finding_description a))))
  ∧ 4 ≤ length (Py.split (Py.lower (default "" (finding_description b))))
  ∧ is_Some (finding_description a)
  ∧ is_Some (finding_description b).
Proof.
  unfold description_signal; cbn zeta. rewrite bool_decide_eq_true.
  set (wa := Py.split (Py.lower (default "" (finding_description a)))).
  set (wb := Py.split (Py.lower (default "" (finding_description b)))).
  intros Hsize.
  assert (Ha : size (Py.set wa ∩ Py.set wb) ≤ length wa).
  { etrans; [apply subseteq_size|apply size_list_to_set_le]. set_solver. }
  assert (Hb : size (Py.set wa ∩ Py.set wb) ≤ length wb).
  { etrans; [apply subseteq_size|apply size_list_to_set_le]. set_solver. }
  split_and!; [lia|lia| |].
  - destruct (finding_description a); [done|]. simpl in wa.
    subst wa. simpl in Ha. lia.
  - destruct (finding_description b); [done|]. simpl in wb.
    subst wb. simpl in Hb. lia.
Qed.

Lemma description_signal_needs_four_words_witness :
  4 ≤ length (Py.split (Py.lower
                (default "" (finding_description form_finding))))
  ∧ 4 ≤ length (Py.split (Py.lower
                  (default "" (finding_description form_finding'))))
  ∧ is_Some (finding_description form_finding)
  ∧ is_Some (finding_description form_finding').
Proof.
  apply (description_signal_needs_four_words form_finding form_finding').
  vm_compute. reflexivity.
Defined.

(** ** Running the engine again *)

Lemma finding_eq (f g : Finding) :
  untagged f = untagged g →
  source_agent f = source_agent g →
  rejection_reason f = rejection_reason g →
  f = g.
Proof.
  destruct f, g. unfold untagged. simpl. intros [= -> -> -> -> -> -> -> ->].
  by intros -> ->.
Qed.

(** Similarity reads none of the two tags. *)
Lemma are_similar_untagged (self : ConsensusEngine) (a a' b b' : Finding) :
  untagged a = untagged a' → untagged b = untagged b' →
  _are_similar self a b = _are_similar self a' b'.
Proof.
  unfold untagged. intros [= Hd _ _ Hc Ht _ _ _] [= Hd' _ _ Hc' Ht' _ _ _].
  unfold _are_similar, cwe_signal, location_signal, description_signal.
  by rewrite Hd, Hc, Ht, Hd', Hc', Ht'.
Qed.

Lemma greedy_clusters_ext (sim sim' : loc → loc → bool) (n : nat)
    (fs : list loc) :
  (∀ x y, sim x y = sim' x y) →
  greedy_clusters sim n fs = greedy_clusters sim' n fs.
Proof.
  intros Hext. revert fs. induction n as [|n IH]; intros [|x rest]; try done.
  simpl. rewrite IH. f_equal; [f_equal|f_equal];
    apply filter_ext_in; intros y _; by rewrite Hext.
Qed.

Lemma cluster_findings_untagged (self : ConsensusEngine)
    (h h' : gmap loc Finding) (findings : list loc) :
  (∀ l, untagged (h' !!! l) = untagged (h !!! l)) →
  _cluster_findings self h' findings = _cluster_findings self h findings.
Proof.
  intros Hun.
  rewrite !(cluster_findings_greedy _ _ findings (length findings)) by done.
  apply greedy_clusters_ext. intros x y. by apply are_similar_untagged.
Qed.

Lemma collect_results_tag_indep (rs : list AgentResult) (all all' : list loc)
    (h h' : gmap loc Finding) (l : loc) :
  l ∈ input_findings rs →
  source_agent ((collect_results rs all h).2 !!! l)
  = source_agent ((collect_results rs all' h').2 !!! l).
Proof.
  revert all all' h h'. induction rs as [|r rs IH]; intros all all' h h' Hl.
  { by apply elem_of_nil in Hl. }
  simpl.
  pose proof (collect_findings_tag (default "unknown" (agent r))
                (default [] (findings r)) all h l) as Ht.
  pose proof (collect_findings_tag (default "unknown" (agent r))
                (default [] (findings r)) all' h' l) as Ht'.
  destruct (collect_findings (default "unknown" (agent r))
              (default [] (findings r)) all h) as [a1 h1].
  destruct (collect_findings (default "unknown" (agent r))
              (default [] (findings r)) all' h') as [a1' h1'].
  simpl in Ht, Ht'.
  destruct (decide (l ∈ input_findings rs)) as [Hin|Hout]; [by apply IH|].
  unfold input_findings in Hl. rewrite fmap_cons in Hl. simpl in Hl.
  apply elem_of_app in Hl as [Hl|Hl]; [|done].
  destruct (collect_results_spec rs a1 h1) as (h2 & -> & Hs).
  destruct (collect_results_spec rs a1' h1') as (h2' & -> & Hs').
  simpl. destruct (Hs l) as (_ & _ & _ & Hf).
  destruct (Hs' l) as (_ & _ & _ & Hf').
  by rewrite Hf, Hf', Ht, Ht'.
Qed.

Lemma Forall2_functional {A B} (F G : A → option B) (l : list A)
    (k1 k2 : list B) :
  Forall2 (λ x y, F x = Some y) l k1 →
  Forall2 (λ x y, G x = Some y) l k2 →
  (∀ x, x ∈ l → F x = G x) →
  k1 = k2.
Proof.
  intros H1. revert k2. induction H1 as [|x y l k1 Hx _ IH]; intros k2 H2 Hext.
  { by apply Forall2_nil_inv_l in H2. }
  apply Forall2_cons_inv_l in H2 as (y' & k2' & Hy' & H2 & ->).
  rewrite (Hext x) in Hx by left. f_equal; [congruence|].
  apply IH; [done|]. intros z Hz. apply Hext. by right.
Qed.

(** X18: running [build_consensus] a second time on the same reviewer
    results, from the store the first run left, returns the same result and
    leaves every finding as it was: the tags written by the first run do
    not influence clustering, and the second run writes the same tags. *)
Theorem build_consensus_rerun (self : ConsensusEngine)
    (agent_results : list AgentResult) (h h2 : gmap loc Finding)
    (r : ConsensusResult) :
  build_consensus self agent_results h = Some (r, h2) →
  ∃ h3,
    build_consensus self agent_results h2 = Some (r, h3)
    ∧ ∀ l, h3 !!! l = h2 !!! l.
Proof.
  intros Hfirst.
  destruct (build_consensus_spec self agent_results h)
    as (h1 & r0 & h20 & Hcoll & Hsrc & Hrun & Hcons & Hrej & Htags & Hreason
        & Hta & Hth & Hst).
  rewrite Hfirst in Hrun. injection Hrun as <- <-.
  destruct (build_consensus_spec self agent_results h2)
    as (h1' & r' & h3 & Hcoll' & Hsrc' & Hrun' & Hcons' & Hrej' & Htags'
        & Hreason' & Hta' & Hth' & Hst').
  destruct (cluster_findings_inv self h1 (input_findings agent_results))
    as (Hperm & Hne & Hsep).
  (* the store after the second collection is the store the first run left *)
  assert (Hsame : ∀ l, h1' !!! l = h2 !!! l).
  { intros l. destruct (Hsrc' l) as (Hu & Hr & _ & Hframe).
    destruct (decide (l ∈ input_findings agent_results)) as [Hin|Hout];
      [|by apply Hframe].
    apply finding_eq; [done| |done].
    destruct (Htags l) as (_ & -> & _).
    pose proof (collect_results_tag_indep agent_results [] [] h2 h l Hin)
      as Htag.
    by rewrite Hcoll, Hcoll' in Htag. }
  assert (Hcs : _cluster_findings self h1' (input_findings agent_results)
                = _cluster_findings self h1 (input_findings agent_results)).
  { apply cluster_findings_untagged. intros l. rewrite Hsame.
    by destruct (Htags l) as (-> & _). }
  rewrite Hcs in Hcons', Hrej', Hreason'.
  set (cs := _cluster_findings self h1 (input_findings agent_results)) in *.
  assert (Hrr : rejected_findings r' = rejected_findings r) by congruence.
  assert (Hcc : consensus_findings r' = consensus_findings r).
  { eapply Forall2_functional; [exact Hcons'|exact Hcons|].
    intros c Hc. apply list_elem_of_filter in Hc as [Hag Hc]. simpl.
    f_equal. apply list_fmap_ext. intros i l Hl.
    apply list_elem_of_lookup_2 in Hl. rewrite Hsame.
    destruct (Htags l) as (_ & _ & Hframe). apply Hframe.
    rewrite Hrej. intros Hin.
    apply elem_of_concat_filter in Hin as (c' & Hc' & Hnag & Hl').
    by rewrite (separated_elem cs c c' l) in Hag. }
  assert (r' = r) as ->.
  { destruct r, r'. simpl in *. congruence. }
  exists h3. split; [done|].
  intros l. destruct (Htags' l) as (Hu & Hs & Hframe).
  destruct (decide (l ∈ rejected_findings r)) as [Hin|Hout].
  - apply finding_eq.
    + by rewrite Hu, Hsame.
    + by rewrite Hs, Hsame.
    + rewrite Hrej in Hin.
      apply elem_of_concat_filter in Hin as (c & Hc & Hnag & Hl).
      by rewrite (Hreason c l), (Hreason' c l).
  - by rewrite Hframe, Hsame.
Qed.

Lemma build_consensus_rerun_witness :
  ∃ r h2 h3,
    build_consensus default_engine three_reviewers sample_store = Some (r, h2)
    ∧ build_consensus default_engine three_reviewers h2 = Some (r, h3)
    ∧ ∀ l, h3 !!! l = h2 !!! l.
Proof.
  assert (∃ p, build_consensus default_engine three_reviewers sample_store
               = Some p) as [[r h2] E]
    by (eexists; vm_compute; reflexivity).
  destruct (build_consensus_rerun default_engine three_reviewers
              sample_store h2 r E) as (h3 & H1 & H2).
  exists r, h2, h3. by split_and!.
Defined.

(** ** Substrings *)

Lemma lower_app (s t : string) :
  Py.lower (s +:+ t) = Py.lower s +:+ Py.lower t.
Proof. induction s as [|c s IH]; simpl; [done|]. by rewrite IH. Qed.

Lemma startswith_app (p s t : string) :
  PyStr.startswith p s = true → PyStr.startswith p (s +:+ t) = true.
Proof.
  revert s. induction p as [|a p IH]; intros [|b s]; simpl; try done.
  destruct (decide (a = b)); [apply IH|done].
Qed.

Lemma contains_app_r (sub s t : string) :
  PyStr.contains sub s = true → PyStr.contains sub (s +:+ t) = true.
Proof.
  induction s as [|c s IH]; simpl.
  - rewrite orb_false_r. intros Hp. destruct sub; [|done].
    by destruct t.
  - rewrite !orb_true_iff. intros [Hp|Hc].
    + left. by apply (startswith_app sub (String c s) t).
    + right. by apply IH.
Qed.

Lemma contains_app_l (sub s t : string) :
  PyStr.contains sub s = true → PyStr.contains sub (t +:+ s) = true.
Proof.
  intros Hs. induction t as [|c t IH]; simpl; [done|].
  rewrite IH. apply orb_true_r.
Qed.

Lemma contains_embedded (sub s pre post : string) :
  PyStr.contains sub s = true →
  PyStr.contains sub (pre +:+ s +:+ post) = true.
Proof. intros H. by apply contains_app_l, contains_app_r. Qed.

(** ** [FindingVerifierTool.execute] *)

Section Verifier.

Import FindingVerifierTool.

(** X19: the verdict of [FindingVerifierTool.execute] has one of two
    shapes. It is valid, with confidence 0.85 and the action
    [Address immediately], exactly when the lower-cased context contains
    none of [test], [mock], [example], [demo]; otherwise it is not valid,
    its confidence is 0.3 or 0.4 and the action is [Review manually]. *)
Theorem verifier_verdict_shapes (finding_description code_context
    severity : string) :
  let r := execute finding_description code_context severity in
  let mentions w := PyStr.contains w (Py.lower code_context) = true in
  (is_valid r = true
   ∧ confidence r = (85 # 100)%Q
   ∧ recommended_action r = "Address immediately"
   ∧ ¬ (mentions "test" ∨ mentions "mock"
        ∨ mentions "example" ∨ mentions "demo"))
  ∨ (is_valid r = false
     ∧ (confidence r = (3 # 10)%Q ∨ confidence r = (4 # 10)%Q)
     ∧ recommended_action r = "Review manually"
     ∧ (mentions "test" ∨ mentions "mock"
        ∨ mentions "example" ∨ mentions "demo")).
Proof.
  intros r mentions. subst r mentions. unfold execute, verdict.
  destruct (PyStr.contains "test" _) eqn:H1; simpl.
  { right. split_and!; [done|by left|done|by left]. }
  destruct (PyStr.contains "mock" _) eqn:H2; simpl.
  { right. split_and!; [done|by left|done|by right; left]. }
  destruct (PyStr.contains "example" _) eqn:H3; simpl.
  { right. split_and!; [done|by right|done|by right; right; left]. }
  destruct (PyStr.contains "demo" _) eqn:H4; simpl.
  { right. split_and!; [done|by right|done|by right; right; right]. }
  left. split_and!; [done..|]. intros [?|[?|[?|?]]]; congruence.
Qed.

Lemma verdict_invalid_iff (code_context : string) :
  (verdict code_context).1.1 = false
  ↔ PyStr.contains "test" (Py.lower code_context) = true
    ∨ PyStr.contains "mock" (Py.lower code_context) = true
    ∨ PyStr.contains "example" (Py.lower code_context) = true
    ∨ PyStr.contains "demo" (Py.lower code_context) = true.
Proof.
  unfold verdict.
  destruct (PyStr.contains "test" _), (PyStr.contains "mock" _),
    (PyStr.contains "example" _), (PyStr.contains "demo" _); simpl;
    split; try done; try tauto; intros [?|[?|[?|?]]]; done.
Qed.

Lemma execute_is_valid (d c s : string) :
  is_valid (execute d c s) = (verdict c).1.1.
Proof. unfold execute. by destruct (verdict c) as [[v q] t]. Qed.

(** X20: a context judged not valid stays not valid when text is put
    around it, when its letters change case, and whatever the finding
    description and the severity are: only the presence of a keyword in the
    context counts. *)
Theorem verifier_invalid_is_monotone (d d' c c' s s' pre post : string) :
  Py.lower c' = Py.lower c →
  is_valid (execute d c s) = false →
  is_valid (execute d' (pre +:+ c' +:+ post) s') = false.
Proof.
  rewrite !execute_is_valid, !verdict_invalid_iff.
  rewrite !lower_app. intros ->.
  intros [H|[H|[H|H]]];
    [left|right; left|right; right; left|right; right; right];
    by apply contains_embedded.
Qed.

Lemma verifier_invalid_is_monotone_witness :
  is_valid (execute "XSS" ("def " +:+ "TEST_login" +:+ "(): pass") "Low")
  = false.
Proof.
  apply (verifier_invalid_is_monotone "SQL injection" "XSS"
           "test_login" "TEST_login" "High" "Low" "def " "(): pass");
    reflexivity.
Defined.

End Verifier.

(** ** Regular expressions *)

Section Regex.

Import Re.

Lemma nullable_Matches (r : regex) : nullable r = true ↔ Matches r [].
Proof.
  split.
  - induction r as [| |p|r1 IH1 r2 IH2|r1 IH1 r2 IH2|r IH]; simpl; intros H.
    + done.
    + constructor.
    + done.
    + apply andb_true_iff in H as [H1 H2].
      apply (MSeq r1 r2 [] []); auto.
    + apply orb_true_iff in H as [H|H]; [apply MAltL|apply MAltR]; auto.
    + constructor.
  - intros H. remember [] as s eqn:E.
    induction H as [|p c Hp|r1 r2 s1 s2 H1 IH1 H2 IH2|r1 r2 s H IH
                    |r1 r2 s H IH|r|r s1 s2 H1 IH1 H2 IH2]; simpl; try done.
    + apply app_eq_nil in E as [-> ->]. by rewrite IH1, IH2.
    + by rewrite IH.
    + rewrite IH by done. apply orb_true_r.
Qed.

Lemma deriv_Matches_1 (c : ascii) (r : regex) (s : list ascii) :
  Matches (deriv c r) s → Matches r (c :: s).
Proof.
  revert s.
  induction r as [| |p|r1 IH1 r2 IH2|r1 IH1 r2 IH2|r IH]; simpl; intros s H.
  - inversion H.
  - inversion H.
  - destruct (p c) eqn:Hp; inversion H; subst. by constructor.
  - destruct (nullable r1) eqn:N.
    + inversion H as [| | | ? ? ? H'| ? ? ? H'| |]; subst.
      * inversion H' as [| |? ? s1 s2 Ha Hb| | | |]; subst.
        apply (MSeq r1 r2 (c :: s1) s2); auto.
      * apply (MSeq r1 r2 [] (c :: s)); [by apply nullable_Matches|auto].
    + inversion H as [| |? ? s1 s2 Ha Hb| | | |]; subst.
      apply (MSeq r1 r2 (c :: s1) s2); auto.
  - inversion H; subst; [apply MAltL|apply MAltR]; auto.
  - inversion H as [| |? ? s1 s2 Ha Hb| | | |]; subst.
    apply (MStarApp r (c :: s1) s2); auto.
Qed.

Lemma deriv_Matches_2 (c : ascii) (r : regex) (s : list ascii) :
  Matches r (c :: s) → Matches (deriv c r) s.
Proof.
  intros H. remember (c :: s) as cs eqn:E. revert c s E.
  induction H as [|p c0 Hp|r1 r2 s1 s2 H1 IH1 H2 IH2|r1 r2 s0 H IH
                  |r1 r2 s0 H IH|r|r s1 s2 H1 IH1 H2 IH2];
    intros c s E; simpl.
  - done.
  - injection E as -> <-. rewrite Hp. constructor.
  - destruct s1 as [|a s1]; simpl in E.
    + subst s2. apply nullable_Matches in H1. rewrite H1.
      apply MAltR. by apply IH2.
    + injection E as -> <-.
      destruct (nullable r1); [apply MAltL|];
        apply MSeq; auto.
  - apply MAltL. by apply IH.
  - apply MAltR. by apply IH.
  - done.
  - destruct s1 as [|a s1]; simpl in E.
    + subst s2. by apply IH2.
    + injection E as -> <-. apply MSeq; auto.
Qed.

Lemma fullmatch_Matches (r : regex) (s : list ascii) :
  fullmatch r s = true ↔ Matches r s.
Proof.
  revert r. induction s as [|c s IH]; intros r; simpl.
  - apply nullable_Matches.
  - rewrite IH. split; [apply deriv_Matches_1|apply deriv_Matches_2].
Qed.

Lemma Matches_star_any (s : list ascii) : Matches (Star any) s.
Proof.
  induction s as [|c s IH]; [constructor|].
  apply (MStarApp any [c] s); [by constructor|done].
Qed.

Lemma Matches_Seq_inv (r1 r2 : regex) (s : list ascii) :
  Matches (Seq r1 r2) s
  ↔ ∃ s1 s2, s = s1 ++ s2 ∧ Matches r1 s1 ∧ Matches r2 s2.
Proof.
  split.
  - intros H. inversion H; subst. eauto.
  - intros (s1 & s2 & -> & H1 & H2). by constructor.
Qed.

Lemma Matches_Alt_inv (r1 r2 : regex) (s : list ascii) :
  Matches (Alt r1 r2) s ↔ Matches r1 s ∨ Matches r2 s.
Proof.
  split.
  - intros H. inversion H; subst; auto.
  - intros [H|H]; [by apply MAltL|by apply MAltR].
Qed.

(** [re.search] succeeds exactly when a substring is in the language. *)
Lemma search_iff (r : regex) (s : string) :
  search r s = true
  ↔ ∃ pre m post,
      String.list_ascii_of_string s = pre ++ m ++ post ∧ Matches r m.
Proof.
  unfold search. rewrite fullmatch_Matches, Matches_Seq_inv. split.
  - intros (pre & rest & E & _ & H).
    apply Matches_Seq_inv in H as (m & post & -> & Hm & _). eauto.
  - intros (pre & m & post & E & Hm).
    exists pre, (m ++ post). split_and!; [done|apply Matches_star_any|].
    apply MSeq; [done|apply Matches_star_any].
Qed.

Lemma Matches_lit_ci (w : string) (m : list ascii) :
  Matches (lit_ci w) m
  ↔ Py.lower_ascii <$> m = Py.lower_ascii <$> String.list_ascii_of_string w.
Proof.
  revert m. induction w as [|c w IH]; intros m.
  - simpl. split.
    + intros H. by inversion H.
    + intros H. apply fmap_nil_inv in H as ->. constructor.
  - change (String.list_ascii_of_string (String c w))
      with (c :: String.list_ascii_of_string w).
    change (lit_ci (String c w)) with (Seq (chr_ci c) (lit_ci w)).
    rewrite Matches_Seq_inv, fmap_cons. split.
    + intros (s1 & s2 & -> & H1 & H2).
      inversion H1 as [|p x Hx| | | | |]; subst.
      apply bool_decide_eq_true in Hx. apply IH in H2.
      change ([x] ++ s2) with (x :: s2). by rewrite fmap_cons, Hx, H2.
    + destruct m as [|x m]; [done|]. rewrite fmap_cons. intros [= Hx Hm].
      exists [x], m. split_and!; [done| |by apply IH].
      constructor. by apply bool_decide_eq_true.
Qed.

Lemma Matches_alts (rs : list regex) (m : list ascii) :
  Matches (alts rs) m ↔ ∃ r, r ∈ rs ∧ Matches r m.
Proof.
  induction rs as [|r rs IH]; simpl.
  - split; [intros H; inversion H|].
    intros (r & Hr & _). by apply elem_of_nil in Hr.
  - rewrite Matches_Alt_inv, IH. split.
    + intros [H|(r' & Hr' & H)]; [exists r; split; [left|done]|].
      exists r'. split; [by right|done].
    + intros (r' & Hr' & H). apply elem_of_cons in Hr' as [->|Hr'];
        [by left|right; eauto].
Qed.

End Regex.

(** ** Strings as lists of characters *)

Lemma list_ascii_of_lower (s : string) :
  String.list_ascii_of_string (Py.lower s)
  = Py.lower_ascii <$> String.list_ascii_of_string s.
Proof. induction s as [|c s IH]; simpl; [done|]. by rewrite IH. Qed.

Lemma startswith_iff (p s : string) :
  PyStr.startswith p s = true
  ↔ ∃ post, String.list_ascii_of_string s
            = String.list_ascii_of_string p ++ post.
Proof.
  revert s. induction p as [|a p IH]; intros s; simpl.
  - split; [eauto|done].
  - destruct s as [|b s]; simpl.
    + split; [done|]. by intros (post & ?).
    + destruct (decide (a = b)) as [->|Hne].
      * rewrite IH. split; intros (post & E); exists post; congruence.
      * split; [done|]. intros (post & [= ? _]). done.
Qed.

Lemma contains_iff (sub s : string) :
  PyStr.contains sub s = true
  ↔ ∃ pre post, String.list_ascii_of_string s
                = pre ++ String.list_ascii_of_string sub ++ post.
Proof.
  induction s as [|c s IH]; simpl.
  - rewrite orb_false_r, startswith_iff. simpl. split.
    + intros (post & E). by exists [], post.
    + intros (pre & post & E). symmetry in E.
      apply app_eq_nil in E as [-> E]. simpl in E. eauto.
  - rewrite orb_true_iff, startswith_iff, IH. simpl. split.
    + intros [(post & E)|(pre & post & E)].
      * by exists [], post.
      * exists (c :: pre), post. simpl. by rewrite E.
    + intros (pre & post & E). destruct pre as [|x pre]; simpl in E.
      * left. eauto.
      * right. injection E as -> E. eauto.
Qed.

(** A case-insensitive literal is found exactly when the lower-cased
    literal occurs in the lower-cased text. *)
Lemma search_lit_ci (w s : string) :
  Re.search (Re.lit_ci w) s = true
  ↔ PyStr.contains (Py.lower w) (Py.lower s) = true.
Proof.
  rewrite search_iff, contains_iff, !list_ascii_of_lower. split.
  - intros (pre & m & post & E & Hm). apply Matches_lit_ci in Hm.
    exists (Py.lower_ascii <$> pre), (Py.lower_ascii <$> post).
    by rewrite E, !fmap_app, Hm.
  - intros (pre' & post' & E).
    apply fmap_app_inv in E as (pre & rest & Hpre & E & Hs).
    symmetry in E.
    apply fmap_app_inv in E as (m & post & Hm & Hpost & ->).
    exists pre, m, post. split; [done|]. by apply Matches_lit_ci.
Qed.

Lemma search_alts_lit_ci (ws : list string) (s : string) :
  Re.search (Re.alts (Re.lit_ci <$> ws)) s = true
  ↔ ∃ w, w ∈ ws ∧ PyStr.contains (Py.lower w) (Py.lower s) = true.
Proof.
  rewrite search_iff. split.
  - intros (pre & m & post & E & Hm).
    apply Matches_alts in Hm as (r & Hr & Hm).
    apply list_elem_of_fmap in Hr as (w & -> & Hw).
    exists w. split; [done|]. apply search_lit_ci, search_iff. eauto.
  - intros (w & Hw & Hc). apply search_lit_ci, search_iff in Hc
      as (pre & m & post & E & Hm).
    exists pre, m, post. split; [done|]. apply Matches_alts.
    exists (Re.lit_ci w). split; [|done]. by apply list_elem_of_fmap_2.
Qed.

(** ** [CodeAnalyzerTool.execute] *)

Lemma split_on_go_length (sep : ascii) (cur : list ascii) (s : string) :
  length (PyStr.split_on_go sep cur s) = S (PyStr.count sep s).
Proof.
  revert cur. induction s as [|c s IH]; intros cur; simpl; [done|].
  destruct (decide (c = sep)); simpl; by rewrite IH.
Qed.

Section Analyzer.

Import CodeAnalyzerTool.

(** X21: [line_count] is one more than the number of line feeds in the
    snippet: at least 1, also for an empty snippet, and a final line feed
    counts one more line. *)
Theorem analyzer_line_count (fp code lang atype : string) :
  line_count (execute fp code lang atype)
  = S (PyStr.count PyStr.newline code).
Proof. unfold execute. simpl. apply split_on_go_length. Qed.

Lemma append_if_sublist (cond : bool) (v : Vulnerability)
    (vs done rest : list Vulnerability) :
  vs `sublist_of` done →
  append_if cond v vs `sublist_of` done ++ v :: rest.
Proof.
  intros Hvs. unfold append_if. destruct cond.
  - apply sublist_app; [done|]. apply sublist_skip, sublist_nil_l.
  - rewrite <- (app_nil_r vs). apply sublist_app; [done|apply sublist_nil_l].
Qed.

(** X22: the reported vulnerabilities are a subsequence of the four fixed
    entries, in the order SQL injection, XSS, hardcoded credentials, prompt
    injection: each kind is reported at most once, however often its
    pattern occurs, and [vulnerabilities_found] is their number, at
    most 4. *)
Theorem analyzer_reports_each_kind_once (fp code lang atype : string) :
  let r := execute fp code lang atype in
  vulnerabilities r
    `sublist_of` [sql_injection; xss; hardcoded_credentials; prompt_injection]
  ∧ vulnerabilities_found r = length (vulnerabilities r)
  ∧ vulnerabilities_found r ≤ 4
  ∧ analysis_complete r = true.
Proof.
  intros r.
  assert (Hsub : vulnerabilities r `sublist_of`
            [sql_injection; xss; hardcoded_credentials; prompt_injection]).
  { subst r. unfold execute. simpl.
    set (py := append_if _ hardcoded_credentials _).
    assert (Hpy : py `sublist_of` [sql_injection; xss; hardcoded_credentials]).
    { subst py.
      apply (append_if_sublist _ _ _ [sql_injection; xss] []).
      apply (append_if_sublist _ _ _ [sql_injection] []).
      apply (append_if_sublist _ _ _ [] []). done. }
    assert (Hnil : [] `sublist_of` [sql_injection; xss; hardcoded_credentials])
      by apply sublist_nil_l.
    change [sql_injection; xss; hardcoded_credentials; prompt_injection]
      with ([sql_injection; xss; hardcoded_credentials] ++ [prompt_injection]).
    destruct (decide (Py.lower lang = "python"));
      destruct (bool_decide (atype ∈ ["rai"; "both"]));
      try destruct (Re.search llm_re code);
      try (by apply append_if_sublist);
      by apply sublist_inserts_r. }
  split_and!; [done|done| |done].
  change (vulnerabilities_found r) with (length (vulnerabilities r)).
  by apply sublist_length in Hsub.
Qed.

(** X23: outside Python and outside the RAI analysis types nothing is
    ever reported, whatever the code contains. *)
Theorem analyzer_silent_outside_python_and_rai (fp code lang atype : string) :
  Py.lower lang ≠ "python" →
  atype ≠ "rai" → atype ≠ "both" →
  vulnerabilities (execute fp code lang atype) = []
  ∧ vulnerabilities_found (execute fp code lang atype) = 0.
Proof.
  intros Hlang Hrai Hboth. unfold execute. simpl.
  rewrite decide_False by done.
  rewrite bool_decide_eq_false_2; [done|].
  intros Hin. apply elem_of_cons in Hin as [->|Hin]; [done|].
  by apply list_elem_of_singleton in Hin.
Qed.

Lemma analyzer_silent_outside_python_and_rai_witness :
  vulnerabilities (execute "a.js" password_snippet "JavaScript" "security")
  = []
  ∧ vulnerabilities_found
      (execute "a.js" password_snippet "JavaScript" "security") = 0.
Proof.
  apply (analyzer_silent_outside_python_and_rai "a.js" password_snippet
           "JavaScript" "security"); discriminate.
Defined.

Lemma elem_of_append_if (cond : bool) (v w : Vulnerability)
    (vs : list Vulnerability) :
  w ∈ append_if cond v vs ↔ w ∈ vs ∨ (cond = true ∧ w = v).
Proof.
  unfold append_if. destruct cond.
  - rewrite elem_of_app, list_elem_of_singleton. naive_solver.
  - naive_solver.
Qed.

(** X24: on an ASCII snippet the prompt-injection entry is reported
    exactly when the analysis type is [rai] or [both], the lower-cased
    snippet contains one of [openai], [anthropic], [model.generate],
    [llm], and it contains none of [input_validation], [sanitize],
    [filter]. *)
Theorem analyzer_prompt_injection_iff (fp code lang atype : string) :
  Py.isascii code = true →
  prompt_injection ∈ vulnerabilities (execute fp code lang atype)
  ↔ (atype = "rai" ∨ atype = "both")
    ∧ (∃ w, w ∈ llm_words ∧ PyStr.contains w (Py.lower code) = true)
    ∧ ¬ (∃ w, w ∈ validation_words
              ∧ PyStr.contains w (Py.lower code) = true).
Proof.
  intros _.
  assert (Hllm : Re.search llm_re code = true
            ↔ ∃ w, w ∈ llm_words ∧ PyStr.contains w (Py.lower code) = true).
  { unfold llm_re. rewrite search_alts_lit_ci.
    split; intros (w & Hw & Hc); exists w; split; try done;
      repeat (apply elem_of_cons in Hw as [->|Hw]; [exact Hc|]);
      by apply elem_of_nil in Hw. }
  assert (Hval : Re.search validation_re code = true
            ↔ ∃ w, w ∈ validation_words
                   ∧ PyStr.contains w (Py.lower code) = true).
  { unfold validation_re. rewrite search_alts_lit_ci.
    split; intros (w & Hw & Hc); exists w; split; try done;
      repeat (apply elem_of_cons in Hw as [->|Hw]; [exact Hc|]);
      by apply elem_of_nil in Hw. }
  rewrite <- Hllm, <- Hval. clear Hllm Hval.
  assert (Hat : bool_decide (atype ∈ ["rai"; "both"]) = true
            ↔ atype = "rai" ∨ atype = "both").
  { rewrite bool_decide_eq_true, elem_of_cons, list_elem_of_singleton. done. }
  rewrite <- Hat. clear Hat.
  assert (Hpy : ∀ vs,
            vs `sublist_of` [sql_injection; xss; hardcoded_credentials] →
            prompt_injection ∉ vs).
  { intros vs Hvs Hin. eapply elem_of_sublist in Hin; [|exact Hvs].
    repeat (apply elem_of_cons in Hin as [Hin|Hin]; [discriminate Hin|]).
    by apply elem_of_nil in Hin. }
  unfold execute. simpl.
  set (py := if decide (Py.lower lang = "python") then _ else _).
  assert (Hnot : prompt_injection ∉ py).
  { apply Hpy. subst py. destruct (decide (Py.lower lang = "python"));
      [|apply sublist_nil_l].
    apply (append_if_sublist _ _ _ [sql_injection; xss] []).
    apply (append_if_sublist _ _ _ [sql_injection] []).
    apply (append_if_sublist _ _ _ [] []). done. }
  destruct (bool_decide (atype ∈ ["rai"; "both"])).
  - destruct (Re.search llm_re code).
    + rewrite elem_of_append_if.
      destruct (Re.search validation_re code); simpl; naive_solver.
    + naive_solver.
  - naive_solver.
Qed.

Lemma analyzer_prompt_injection_iff_witness :
  Py.isascii llm_snippet = true
  ∧ prompt_injection
    ∈ vulnerabilities (execute "bot.py" llm_snippet "Python" "rai").
Proof.
  split; [reflexivity|].
  apply (analyzer_prompt_injection_iff "bot.py" llm_snippet "Python" "rai");
    [reflexivity|].
  split; [by left|]. split.
  - exists "openai". split; [apply list_elem_of_here|reflexivity].
  - intros (w & Hw & Hc).
    repeat (apply elem_of_cons in Hw as [->|Hw];
            [vm_compute in Hc; discriminate Hc|]).
    by apply elem_of_nil in Hw.
Defined.

End Analyzer.

(** ** Detection of a hard-coded password *)

Lemma Matches_star_chr (p : ascii → bool) (l : list ascii) :
  Forall (λ c, p c = true) l → Re.Matches (Re.Star (Re.Chr p)) l.
Proof.
  induction 1 as [|c l Hc _ IH]; [constructor|].
  apply (Re.MStarApp (Re.Chr p) [c] l); [by constructor|done].
Qed.

Section Credentials.

Import CodeAnalyzerTool.

(** X25: in Python code an assignment of a quoted, non-empty text to
    [password] is reported as hard-coded credentials wherever it stands in
    the snippet: in any letter case of the word, with any white space around
    the equals sign, with single or double quotes, and whatever the analysis
    type is. *)
Theorem analyzer_reports_quoted_password
    (fp pre kw ws1 ws2 secret post lang atype : string) (q1 q2 : ascii) :
  Py.lower lang = "python" →
  Py.lower kw = "password" →
  Forall (λ c, Py.isspace c = true) (String.list_ascii_of_string ws1) →
  Forall (λ c, Py.isspace c = true) (String.list_ascii_of_string ws2) →
  q1 ∈ quotes → q2 ∈ quotes →
  secret ≠ EmptyString →
  Forall (λ c, c ∉ quotes) (String.list_ascii_of_string secret) →
  hardcoded_credentials
  ∈ vulnerabilities
      (execute fp
         (pre +:+ kw +:+ ws1 +:+ "=" +:+ ws2
          +:+ String q1 (secret +:+ String q2 post))
         lang atype).
Proof.
  intros Hlang Hkw Hws1 Hws2 Hq1 Hq2 Hne Hsecret.
  assert (Hsearch :
    Re.search credentials_re
      (pre +:+ kw +:+ ws1 +:+ "=" +:+ ws2
       +:+ String q1 (secret +:+ String q2 post)) = true).
  { apply search_iff.
    exists (String.list_ascii_of_string pre),
      (String.list_ascii_of_string kw
       ++ String.list_ascii_of_string ws1
       ++ ["="%char]
       ++ String.list_ascii_of_string ws2
       ++ [q1]
       ++ String.list_ascii_of_string secret
       ++ [q2]),
      (String.list_ascii_of_string post).
    split.
    - rewrite !list_ascii_of_app. simpl. rewrite !list_ascii_of_app. simpl.
      repeat first [rewrite <- app_assoc | progress simpl]. done.
    - unfold credentials_re, Re.seqs, Re.plus. cbn [foldr].
      apply Re.MSeq.
      { apply (proj2 (Matches_lit_ci "password" _)).
        by rewrite <- !list_ascii_of_lower, Hkw. }
      apply Re.MSeq; [by apply Matches_star_chr|].
      apply Re.MSeq; [constructor; by apply bool_decide_eq_true|].
      apply Re.MSeq; [by apply Matches_star_chr|].
      apply Re.MSeq; [constructor; by apply bool_decide_eq_true|].
      apply Re.MSeq.
      + destruct secret as [|c secret]; [done|].
        change (String.list_ascii_of_string (String c secret))
          with (c :: String.list_ascii_of_string secret) in *.
        apply Forall_cons in Hsecret as [Hc Hsecret].
        apply (Re.MSeq _ _ [c] (String.list_ascii_of_string secret)).
        * constructor. apply negb_true_iff, bool_decide_eq_false. exact Hc.
        * apply Matches_star_chr. eapply Forall_impl; [exact Hsecret|].
          intros x Hx. simpl. apply negb_true_iff, bool_decide_eq_false.
          exact Hx.
      + apply (Re.MSeq _ _ [q2] []); [|constructor].
        constructor. by apply bool_decide_eq_true. }
  unfold execute. simpl. rewrite decide_True by done.
  rewrite Hsearch.
  set (vs := CodeAnalyzerTool.append_if _ xss _).
  assert (Hin : hardcoded_credentials
                ∈ CodeAnalyzerTool.append_if true hardcoded_credentials vs).
  { apply elem_of_append_if. by right. }
  destruct (bool_decide (atype ∈ ["rai"; "both"])); [|done].
  destruct (Re.search llm_re _); [|done].
  apply elem_of_append_if. by left.
Qed.

Lemma analyzer_reports_quoted_password_witness :
  hardcoded_credentials
  ∈ vulnerabilities
      (execute "settings.py"
         ("DEBUG = True; " +:+ "PassWord" +:+ " " +:+ "=" +:+ "  "
          +:+ String "'"%char ("hunter2" +:+ String "'"%char " # todo"))
         "Python" "both").
Proof.
  apply (analyzer_reports_quoted_password "settings.py" "DEBUG = True; "
           "PassWord" " " "  " "hunter2" " # todo" "Python" "both"
           "'"%char "'"%char).
  - reflexivity.
  - reflexivity.
  - repeat constructor.
  - repeat constructor.
  - apply elem_of_cons. right. apply list_elem_of_here.
  - apply elem_of_cons. right. apply list_elem_of_here.
  - discriminate.
  - repeat (apply Forall_cons; split;
            [intros H; repeat (apply elem_of_cons in H as [H|H];
                               [discriminate H|]);
             by apply elem_of_nil in H|]).
    by constructor.
Defined.

End Credentials.

(** ** [generate_report] *)

Section ReportProperties.

Import Report.

Context (str_float format_2f : Q → string).

Example report_example :
  (λ p, (take 2 (drop 13 (report_lines str_float format_2f p.1)),
         report_lines str_float format_2f p.1 !! 19))
    <$> build_consensus default_engine three_reviewers sample_store
  = Some (["1. SQL injection in login";
           "   Severity: High"],
          Some "   Location: app.py (lines 10-14)").
Proof. vm_compute. reflexivity. Qed.

Lemma report_findings_blocks (i : nat) (fs : list Finding)
    (report : list string) :
  report_findings str_float format_2f i fs report
  = report ++ concat (imap (λ k f, block str_float format_2f (i + k) f) fs).
Proof.
  revert i report. induction fs as [|f fs IH]; intros i report.
  { simpl. by rewrite app_nil_r. }
  cbn [report_findings]. rewrite IH, imap_cons. cbn [concat].
  rewrite Nat.add_0_r, <- app_assoc. do 3 f_equal.
  apply imap_ext. intros k x _. simpl. f_equal. lia.
Qed.





(** X27: the counts printed in the report of a run are those of the run:
    lines 5 to 8 of the report show the number of reviewer records, of input
    findings, of consensus findings (the number of numbered blocks that
    follow) and of rejected findings. *)
Theorem report_of_a_run_shows_its_counts (self : ConsensusEngine)
    (agent_results : list AgentResult) (h : gmap loc Finding) :
  ∃ r h2,
    build_consensus self agent_results h = Some (r, h2)
    ∧ report_lines str_float format_2f r !! 4
      = Some ("Total Agents: " +:+ pretty (length agent_results))
    ∧ report_lines str_float format_2f r !! 5
      = Some ("Total Findings: "
              +:+ pretty (length (input_findings agent_results)))
    ∧ report_lines str_float format_2f r !! 6
      = Some ("Consensus Findings: "
              +:+ pretty (length (consensus_findings r)))
    ∧ report_lines str_float format_2f r !! 7
      = Some ("Rejected Findings: "
              +:+ pretty (length (rejected_findings r))).
Proof.
  destruct (build_consensus_spec self agent_results h)
    as (h1 & r & h2 & _ & _ & Hrun & _ & _ & _ & _ & Hta & _ & Hst).
  exists r, h2. split; [done|].
  unfold report_lines. rewrite report_findings_blocks.
  rewrite !lookup_app_l by (simpl; lia).
  unfold header. rewrite Hta, Hst. simpl. done.
Qed.

End ReportProperties.

(** ** What a report requires of the snippet *)

Lemma Matches_lit (w : string) (m : list ascii) :
  Re.Matches (Re.lit w) m ↔ m = String.list_ascii_of_string w.
Proof.
  revert m. induction w as [|c w IH]; intros m.
  - simpl. split.
    + intros H. by inversion H.
    + intros ->. constructor.
  - change (String.list_ascii_of_string (String c w))
      with (c :: String.list_ascii_of_string w).
    change (Re.lit (String c w)) with (Re.Seq (Re.chr c) (Re.lit w)).
    rewrite Matches_Seq_inv. split.
    + intros (s1 & s2 & -> & H1 & H2).
      inversion H1 as [|p x Hx| | | | |]; subst.
      apply bool_decide_eq_true in Hx. apply IH in H2. by subst.
    + intros ->. exists [c], (String.list_ascii_of_string w).
      split_and!; [done| |by apply IH].
      constructor. by apply bool_decide_eq_true.
Qed.

Lemma search_lit (w s : string) :
  Re.search (Re.lit w) s = true ↔ PyStr.contains w s = true.
Proof.
  rewrite search_iff, contains_iff. split.
  - intros (pre & m & post & E & Hm). apply Matches_lit in Hm as ->. eauto.
  - intros (pre & post & E).
    exists pre, (String.list_ascii_of_string w), post.
    split; [done|]. by apply Matches_lit.
Qed.

Lemma search_chr (c : ascii) (s : string) :
  Re.search (Re.chr c) s = true →
  PyStr.contains (String c EmptyString) s = true.
Proof.
  rewrite search_iff, contains_iff.
  intros (pre & m & post & E & Hm).
  inversion Hm as [|p x Hx| | | | |]; subst.
  apply bool_decide_eq_true in Hx as ->. eauto.
Qed.

(** A match of a concatenation holds a match of each part. *)
Lemma Matches_seqs_component (rs : list Re.regex) (r : Re.regex)
    (m : list ascii) :
  Re.Matches (Re.seqs rs) m → r ∈ rs →
  ∃ pre mid post, m = pre ++ mid ++ post ∧ Re.Matches r mid.
Proof.
  revert m. induction rs as [|r' rs IH]; intros m Hm Hr.
  { by apply elem_of_nil in Hr. }
  change (Re.seqs (r' :: rs)) with (Re.Seq r' (Re.seqs rs)) in Hm.
  apply Matches_Seq_inv in Hm as (s1 & s2 & -> & H1 & H2).
  apply elem_of_cons in Hr as [->|Hr].
  - exists [], s1, s2. by split.
  - destruct (IH s2 H2 Hr) as (pre & mid & post & -> & Hmid).
    exists (s1 ++ pre), mid, post. split; [by rewrite <- app_assoc|done].
Qed.

Lemma search_seqs_component (rs : list Re.regex) (r : Re.regex) (s : string) :
  Re.search (Re.seqs rs) s = true → r ∈ rs → Re.search r s = true.
Proof.
  rewrite !search_iff. intros (pre & m & post & E & Hm) Hr.
  destruct (Matches_seqs_component rs r m Hm Hr)
    as (pre' & mid & post' & -> & Hmid).
  exists (pre ++ pre'), mid, (post' ++ post). split; [|done].
  rewrite E. by rewrite <- !app_assoc.
Qed.

Section AnalyzerRequires.

Import CodeAnalyzerTool.

Lemma python_reports (fp code lang atype : string) (v : Vulnerability) :
  v ∈ vulnerabilities (execute fp code lang atype) →
  v ≠ prompt_injection →
  Py.lower lang = "python"
  ∧ ((v = sql_injection ∧ Re.search sql_injection_re code = true)
     ∨ (v = xss ∧ Re.search xss_re code = true)
     ∨ (v = hardcoded_credentials
        ∧ Re.search credentials_re code = true)).
Proof.
  unfold execute. simpl. intros Hin Hv.
  assert (Hpy : v ∈ (if decide (Py.lower lang = "python")
                     then append_if (Re.search credentials_re code)
                            hardcoded_credentials
                            (append_if (Re.search xss_re code) xss
                               (append_if (Re.search sql_injection_re code)
                                  sql_injection []))
                     else [])).
  { destruct (bool_decide (atype ∈ ["rai"; "both"])); [|done].
    destruct (Re.search llm_re code); [|done].
    apply elem_of_append_if in Hin as [Hin|[_ Hin]]; done. }
  destruct (decide (Py.lower lang = "python")); [|by apply elem_of_nil in Hpy].
  split; [done|].
  apply elem_of_append_if in Hpy as [Hpy|[? ->]]; [|by right; right].
  apply elem_of_append_if in Hpy as [Hpy|[? ->]]; [|by right; left].
  apply elem_of_append_if in Hpy as [Hpy|[? ->]]; [|by left].
  by apply elem_of_nil in Hpy.
Qed.

(** X28: the three Python checks are reported for Python only, and only
    when their literal texts occur in the snippet: SQL injection needs
    [execute] and [%s], XSS needs [render_template], two opening braces and
    [|safe] with two closing braces, hard-coded credentials need an equals
    sign and, in an ASCII snippet, [password] in any case. *)
Theorem analyzer_reports_need_their_keywords (fp code lang atype : string) :
  let vs := vulnerabilities (execute fp code lang atype) in
  (sql_injection ∈ vs →
     Py.lower lang = "python"
     ∧ PyStr.contains "execute" code = true
     ∧ PyStr.contains "%s" code = true)
  ∧ (xss ∈ vs →
       Py.lower lang = "python"
       ∧ PyStr.contains "render_template" code = true
       ∧ PyStr.contains "{{" code = true
       ∧ PyStr.contains "|safe}}" code = true)
  ∧ (hardcoded_credentials ∈ vs →
       Py.lower lang = "python"
       ∧ PyStr.contains "=" code = true
       ∧ (Py.isascii code = true →
          PyStr.contains "password" (Py.lower code) = true)).
Proof.
  intros vs. subst vs. split_and!; intros Hin;
    destruct (python_reports fp code lang atype _ Hin) as [Hpy Hcase];
    try done; split; try done;
    destruct Hcase as [[Hv Hs]|[[Hv Hs]|[Hv Hs]]]; try discriminate Hv.
  - split; apply search_lit;
      apply (search_seqs_component _ _ _ Hs);
      repeat first [apply list_elem_of_here | apply list_elem_of_further].
  - split_and!; apply search_lit;
      apply (search_seqs_component _ _ _ Hs);
      repeat first [apply list_elem_of_here | apply list_elem_of_further].
  - split.
    + apply (search_chr "="%char).
      apply (search_seqs_component _ (Re.chr "=") _ Hs).
      do 2 apply list_elem_of_further. apply list_elem_of_here.
    + intros _. apply (search_lit_ci "password").
      apply (search_seqs_component _ _ _ Hs). apply list_elem_of_here.
Qed.

End AnalyzerRequires.

Lemma analyzer_reports_need_their_keywords_witness :
  Py.lower "Python" = "python"
  ∧ PyStr.contains "=" password_snippet = true
  ∧ PyStr.contains "password" (Py.lower password_snippet) = true.
Proof.
  destruct (analyzer_reports_need_their_keywords "settings.py"
              password_snippet "Python" "security") as (_ & _ & H).
  destruct H as (H1 & H2 & H3).
  - vm_compute. apply list_elem_of_here.
  - split; [exact H1|]. split; [exact H2|]. apply H3. reflexivity.
Defined.
